(** * ApolloApi: a GraphQL server behind an HTTP API

    Shallow embedding of [packages/resources/src/ApolloApi.ts].

    The class [ApolloApi] extends the generic [Api] construct.  Its
    constructor validates the props, optionally runs [graphql-codegen]
    through [spawn.sync], and calls [super] with a derived route map.  It
    overrides [createFunctionIntegration] so that one route integration is
    created and shared, and adds [getConstructMetadata] and the
    [serverFunction] getter.

    JavaScript objects that are used as maps (the route map, the metadata
    record, the option bag) are finite maps over strings; an optional
    field is an [option]; an exception is an [Outcome]; mutation of [this]
    and of the process (spawned commands, the call into [super]) is
    explicit state passing. *)

From stdpp Require Import base option list gmap strings fin_maps.

(** ** JavaScript values and strings *)

(** The double quote, written by its code so that messages can embed it. *)
Definition dquote : string := String (Ascii.ascii_of_nat 34) EmptyString.

(** [quoted s] is [s] between double quotes, as the messages print the
    construct id and the option names. *)
Definition quoted (s : string) : string := dquote +:+ s +:+ dquote.

(** Values that are only stored and passed on: [undefined], a string, or
    an object known by its reference. *)
Inductive JsValue : Type :=
| JsUndefined
| JsString (s : string)
| JsReference (addr : nat).

(** The value of a record field: a plain value or an object literal. *)
Inductive JsField : Type :=
| Plain (v : JsValue)
| Object (fields : gmap string JsValue).

(** Reading an optional string property gives the string or [undefined]. *)
Definition js_of_opt_string (s : option string) : JsValue :=
  match s with
  | Some s => JsString s
  | None => JsUndefined
  end.

(** A template literal prints an absent string as [undefined]. *)
Definition template_hole (s : option string) : string :=
  match s with
  | Some s => s
  | None => "undefined"
  end.

(** JavaScript truthiness of a string: only the empty string is falsy. *)
Definition truthy_string (s : string) : bool :=
  match s with
  | EmptyString => false
  | String _ _ => true
  end.

(** ** Errors and effects *)

Inductive JsError : Type :=
| Error (message : string)
| TypeError (message : string).

Inductive Outcome (A : Type) : Type :=
| Return (a : A)
| Throw (e : JsError).
Arguments Return {A} a.
Arguments Throw {A} e.

(** A computation over a mutable state [S] that may throw.  The state
    reached when an exception is thrown is kept, as in JavaScript. *)
Definition Exec (S A : Type) : Type := S → Outcome A * S.

#[global] Instance Exec_ret {S} : MRet (Exec S) :=
  λ A a s, (Return a, s).

#[global] Instance Exec_bind {S} : MBind (Exec S) :=
  λ A B k m s,
    match m s with
    | (Return a, s') => k a s'
    | (Throw e, s') => (Throw e, s')
    end.

Definition throw {S A} (e : JsError) : Exec S A := λ s, (Throw e, s).
Definition get_state {S} : Exec S S := λ s, (Return s, s).

(** ** Collaborators declared outside this file

    [./Function], [./Api], [./App], [constructs], the API gateway library
    and [cross-spawn] are imported by the source; only what the class
    uses of them is represented. *)

(** Modelled from the spec: the handler descriptor [FunctionDefinition]
    of [./Function], an opaque value passed through unmodified.  It is a
    handler path (a string) or an object (a function construct or a
    function props record) known by reference. *)
Inductive FunctionDefinition : Type :=
| HandlerPath (handler : string)
| FunctionObject (addr : nat).

(** Truthiness of a handler descriptor: an object is always truthy. *)
Definition truthy_function (f : FunctionDefinition) : bool :=
  match f with
  | HandlerPath h => truthy_string h
  | FunctionObject _ => true
  end.

(** Modelled from the spec: the enumeration [ApiPayloadFormatVersion] of
    [./Api]; its members are the non-empty strings 1.0 and 2.0, so every
    member is truthy. *)
Inductive ApiPayloadFormatVersion : Type := V1 | V2.

Definition payload_format_string (v : ApiPayloadFormatVersion) : string :=
  match v with
  | V1 => "1.0"
  | V2 => "2.0"
  end.

(** [a || b] on an optional enumeration member. *)
Definition or_version (a : option ApiPayloadFormatVersion)
    (b : ApiPayloadFormatVersion) : ApiPayloadFormatVersion :=
  match a with
  | Some v => if truthy_string (payload_format_string v) then v else b
  | None => b
  end.

(** The props of the generic construct as the constructor of [Api]
    receives them from [ApolloApi]: the route map, the payload format
    version, and whatever the rest spread carried along. *)
Record ApiProps : Type := {
  api_routes : option (gmap string FunctionDefinition);
  api_defaultPayloadFormatVersion : option ApiPayloadFormatVersion;
  api_codegen : option string;
  api_options : gmap string JsValue;
}.

Record ApiFunctionRouteProps : Type := {
  route_function : FunctionDefinition;
}.

(** A route integration is an object; two are the same object exactly
    when their references are equal. *)
Record HttpRouteIntegration : Type := {
  integration_ref : nat;
}.

(** [App.of(scope)] and its [local] flag. *)
Record App : Type := {
  local : bool;
}.

Record Construct : Type := {
  construct_app : App;
}.

Definition App_of (scope : Construct) : App := construct_app scope.

(** The result of [spawn.sync]: the exit status, [null] when there is
    none. *)
Record SpawnSyncReturns : Type := {
  status : option Z;
}.

(** [result.status !== 0] *)
Definition status_not_zero (r : SpawnSyncReturns) : bool :=
  match status r with
  | Some 0%Z => false
  | _ => true
  end.

(** *** The process: spawned commands and the call into [super] *)

Inductive Event : Type :=
| SpawnSync (command : string) (args : list string)
| SuperCall (id : string) (props : ApiProps).

(** The events of one construction, oldest first. *)
Definition Process : Type := list Event.

Definition emit (e : Event) : Exec Process unit :=
  λ log, (Return tt, log ++ [e]).

(** The commands spawned, and the props passed to [super], in a log. *)
Definition spawned (log : Process) : list (string * list string) :=
  omap (λ e, match e with
             | SpawnSync command args => Some (command, args)
             | SuperCall _ _ => None
             end) log.

Definition super_calls (log : Process) : list (string * ApiProps) :=
  omap (λ e, match e with
             | SpawnSync _ _ => None
             | SuperCall id props => Some (id, props)
             end) log.

(** *** The generic construct [Api] *)

(** Modelled from the spec: the state of the generic API construct of
    [./Api]: the construct id, the handler registered for each route
    key, the integration bound to each route key, and the integration
    objects its default creation logic has made so far (the object with
    reference [n] is the [n]-th of them, recorded with the arguments it
    was made for). *)
Record Api : Type := {
  node_id : string;
  functions : gmap string FunctionDefinition;
  bindings : gmap string HttpRouteIntegration;
  integrations : list (string * ApiFunctionRouteProps * string);
}.

Definition Api_blank (id : string) : Api :=
  {| node_id := id; functions := ∅; bindings := ∅; integrations := [] |}.

(** Modelled from the spec: the default integration-creation logic,
    [Api.createFunctionIntegration]: it makes a new integration object. *)
Definition Api_createFunctionIntegration (scope : Construct) (routeKey : string)
    (routeProps : ApiFunctionRouteProps) (postfixName : string)
  : Exec Api HttpRouteIntegration :=
  λ a,
    (Return {| integration_ref := length (integrations a) |},
     {| node_id := node_id a;
        functions := functions a;
        bindings := bindings a;
        integrations := integrations a ++ [(routeKey, routeProps, postfixName)] |}).

(** Modelled from the spec: the bookkeeping of one registered route. *)
Definition Api_register (routeKey : string) (handler : FunctionDefinition)
    (integration : HttpRouteIntegration) : Exec Api unit :=
  λ a,
    (Return tt,
     {| node_id := node_id a;
        functions := <[routeKey := handler]> (functions a);
        bindings := <[routeKey := integration]> (bindings a);
        integrations := integrations a |}).

(** Modelled from the spec: [Api.getFunction], the registered-function
    lookup; [None] is [undefined]. *)
Definition Api_getFunction (routeKey : string) (a : Api) : option FunctionDefinition :=
  functions a !! routeKey.

(** ** The class [ApolloApi] *)

Record ApolloApiProps : Type := {
  server : option FunctionDefinition;
  rootPath : option string;
  codegen : option string;
  defaultPayloadFormatVersion : option ApiPayloadFormatVersion;
  routes : option (gmap string FunctionDefinition);
  options : gmap string JsValue;
}.

(** The empty object of [props || {}]. *)
Definition no_props : ApolloApiProps :=
  {| server := None; rootPath := None; codegen := None;
     defaultPayloadFormatVersion := None; routes := None; options := ∅ |}.

(** An instance: the inherited part and the three private fields, each
    [undefined] until it is assigned. *)
Record ApolloApi : Type := {
  super : Api;
  lambdaIntegration : option HttpRouteIntegration;
  this_rootPath : option string;
  this_props : option ApolloApiProps;
}.

(** The object as the constructor of [Api] finds it. *)
Definition ApolloApi_blank (id : string) : ApolloApi :=
  {| super := Api_blank id; lambdaIntegration := None;
     this_rootPath := None; this_props := None |}.

(** Run a method of the base class on the inherited part of [this]. *)
Definition on_super {A} (m : Exec Api A) : Exec ApolloApi A :=
  λ this,
    let '(r, a) := m (super this) in
    (r, {| super := a; lambdaIntegration := lambdaIntegration this;
           this_rootPath := this_rootPath this; this_props := this_props this |}).

Definition set_lambdaIntegration (i : HttpRouteIntegration) : Exec ApolloApi unit :=
  λ this,
    (Return tt,
     {| super := super this; lambdaIntegration := Some i;
        this_rootPath := this_rootPath this; this_props := this_props this |}).

(** [createFunctionIntegration]: create the integration once, then hand
    out the one that is stored. *)
Definition createFunctionIntegration (scope : Construct) (routeKey : string)
    (routeProps : ApiFunctionRouteProps) (postfixName : string)
  : Exec ApolloApi HttpRouteIntegration :=
  this ← get_state;
  match lambdaIntegration this with
  | Some cached => mret cached
  | None =>
      created ← on_super
        (Api_createFunctionIntegration scope routeKey routeProps postfixName);
      set_lambdaIntegration created;;
      mret created
  end.

(** Modelled from the spec: the constructor of [Api].  It registers the
    routes of the route map one by one, in the order the map lists them,
    and asks [this] for the integration of each route, so the override
    above is the one that runs.  The name suffix it passes is derived
    from the route key. *)
Definition Api_addRoute (scope : Construct) (route : string * FunctionDefinition)
  : Exec ApolloApi unit :=
  integration ← createFunctionIntegration scope route.1
    {| route_function := route.2 |} ("Lambda_" +:+ route.1);
  on_super (Api_register route.1 route.2 integration).

Fixpoint Api_addRoutes (scope : Construct)
    (routes : list (string * FunctionDefinition)) : Exec ApolloApi unit :=
  match routes with
  | [] => mret tt
  | route :: rest => Api_addRoute scope route;; Api_addRoutes scope rest
  end.

Definition Api_constructor (scope : Construct) (id : string) (props : ApiProps)
  : Exec ApolloApi unit :=
  Api_addRoutes scope (map_to_list (default ∅ (api_routes props))).

(** *** Messages *)

Definition missing_server (id : string) : string :=
  "Missing " +:+ quoted "server" +:+ " in the " +:+ quoted id +:+ " ApolloApi".

Definition routes_not_allowed (id : string) : string :=
  "Please use the " +:+ quoted "server" +:+ " option instead of the "
  +:+ quoted "routes" +:+ " to configure the handler for the "
  +:+ quoted id +:+ " ApolloApi".

Definition codegen_failed (id : string) : string :=
  "Failed to generate the schema for the " +:+ quoted id +:+ " ApolloApi".

Definition no_server_function (id : string) : string :=
  "Failed to get " +:+ quoted "serverFunction" +:+ " in the "
  +:+ quoted id +:+ " ApolloApi".

(** Truthiness of an optional object: any object is truthy. *)
Definition truthy_opt_object {A} (o : option A) : bool :=
  match o with
  | Some _ => true
  | None => false
  end.

Definition when {S} (b : bool) (m : Exec S unit) : Exec S unit :=
  if b then m else mret tt.

(** The route map of the call into [super]: an object literal with the
    two computed keys, written in this order. *)
Definition server_routes (rootPath : string) (server : FunctionDefinition)
  : gmap string FunctionDefinition :=
  <["POST " +:+ rootPath := server]> (<["GET " +:+ rootPath := server]> ∅).

Section Collaborators.

(** What [spawn.sync] returns for a command and its arguments: the
    operating system, outside the program. *)
Variable run_command : string → list string → SpawnSyncReturns.

(** [Api.getConstructMetadata]: the metadata the generic construct
    exports for an instance, a record this file knows nothing about. *)
Variable Api_getConstructMetadata : Api → gmap string JsField.

(** [spawn.sync(command, args, { stdio: inherit })]: the call blocks
    until the command ends; the streams it inherits carry no data the
    program reads. *)
Definition spawn_sync (command : string) (args : list string)
  : Exec Process SpawnSyncReturns :=
  λ log, (Return (run_command command args), log ++ [SpawnSync command args]).

(** [super(scope, id, props)]: the base constructor makes the object. *)
Definition call_super (scope : Construct) (id : string) (props : ApiProps)
  : Exec Process ApolloApi :=
  emit (SuperCall id props);;
  match Api_constructor scope id props (ApolloApi_blank id) with
  | (Return _, this) => mret this
  | (Throw e, _) => throw e
  end.

(** The codegen block of the constructor: [if (props.codegen) ...]. *)
Definition run_codegen (scope : Construct) (id : string) (props : ApolloApiProps)
  : Exec Process unit :=
  match codegen props with
  | Some path =>
    when (truthy_string path)
      (let app := App_of scope in
       when (negb (local app))
         (result ← spawn_sync "npx" ["graphql-codegen"; "-c"; path];
          when (status_not_zero result)
            (throw (Error (codegen_failed id)))))
  | None => mret tt
  end.

(** The constructor of [ApolloApi].  The three checks run in the order of
    the source; the destructuring of [props || {}] is the first [let]s,
    and the second destructuring, of [props] itself, has no fallback.  The
    private fields are declared without an initializer, which assigns
    nothing, so the integration that the base constructor stored through
    the override is still in its field when [super] returns. *)
Definition ApolloApi_constructor (scope : Construct) (id : string)
    (props : option ApolloApiProps) : Exec Process ApolloApi :=
  let destructured := default no_props props in
  let root := default "/" (rootPath destructured) in
  let restProps :=
    {| api_routes := routes destructured;
       api_defaultPayloadFormatVersion := None;
       api_codegen := codegen destructured;
       api_options := options destructured |} in
  (* Validate server *)
  match server destructured with
  | None => throw (Error (missing_server id))
  | Some handler =>
    if negb (truthy_function handler) then throw (Error (missing_server id))
    else
    (* Validate routes *)
    match props with
    | None => throw (TypeError "Cannot destructure props")
    | Some props =>
      if truthy_opt_object (routes props)
      then throw (Error (routes_not_allowed id))
      else
        run_codegen scope id props;;
        this ← call_super scope id
          {| api_routes := Some (server_routes root handler);
             api_defaultPayloadFormatVersion :=
               Some (or_version (defaultPayloadFormatVersion destructured) V1);
             api_codegen := api_codegen restProps;
             api_options := api_options restProps |};
        mret {| super := super this;
                lambdaIntegration := lambdaIntegration this;
                this_rootPath := Some root;
                this_props := Some props |}
    end
  end.

(** [getConstructMetadata]: the metadata of the parent, spread, with a
    [local] entry. *)
Definition getConstructMetadata : Exec ApolloApi (gmap string JsField) :=
  this ← get_state;
  let parent := Api_getConstructMetadata (super this) in
  match this_props this with
  | None => throw (TypeError "Cannot read properties of undefined")
  | Some props =>
      mret (<["local" := Object {["codegen" := js_of_opt_string (codegen props)]}]> parent)
  end.

(** The getter [serverFunction]. *)
Definition serverFunction : Exec ApolloApi FunctionDefinition :=
  this ← get_state;
  let serverFn := Api_getFunction ("GET " +:+ template_hole (this_rootPath this)) (super this) in
  (* This should never happen *)
  match serverFn with
  | Some fn =>
      if negb (truthy_function fn)
      then throw (Error (no_server_function (node_id (super this))))
      else mret fn
  | None => throw (Error (no_server_function (node_id (super this))))
  end.

End Collaborators.

(** *** Requests for an integration, as the generic construct makes them *)

Record Request : Type := {
  request_scope : Construct;
  request_routeKey : string;
  request_routeProps : ApiFunctionRouteProps;
  request_postfixName : string;
}.

Definition request (r : Request) : Exec ApolloApi HttpRouteIntegration :=
  createFunctionIntegration (request_scope r) (request_routeKey r)
    (request_routeProps r) (request_postfixName r).

Definition default_request (r : Request) : Exec Api HttpRouteIntegration :=
  Api_createFunctionIntegration (request_scope r) (request_routeKey r)
    (request_routeProps r) (request_postfixName r).

Fixpoint requests (rs : list Request) : Exec ApolloApi (list HttpRouteIntegration) :=
  match rs with
  | [] => mret []
  | r :: rs =>
      first ← request r;
      others ← requests rs;
      mret (first :: others)
  end.

(** A configuration that passes both validations, with its handler. *)
Definition valid (props : ApolloApiProps) (handler : FunctionDefinition) : Prop :=
  server props = Some handler ∧ truthy_function handler = true ∧ routes props = None.

(** The configuration asks for code generation at [path] and the app is
    not local: the constructor reaches [spawn.sync]. *)
Definition generates (scope : Construct) (props : ApolloApiProps) (path : string) : Prop :=
  codegen props = Some path ∧ truthy_string path = true
  ∧ local (App_of scope) = false.

(** The invariant of the data model: an instance has at most one
    integration object, and every route it has registered is bound to
    that object. *)
Definition shares_integration (this : ApolloApi) : Prop :=
  (∀ routeKey,
     is_Some (functions (super this) !! routeKey) →
     is_Some (bindings (super this) !! routeKey))
  ∧ match lambdaIntegration this with
    | None => integrations (super this) = [] ∧ bindings (super this) = ∅
    | Some handle =>
        length (integrations (super this)) = 1
        ∧ ∀ routeKey bound,
            bindings (super this) !! routeKey = Some bound → bound = handle
    end.

(** The command line of the schema generation. *)
Definition codegen_args (path : string) : list string :=
  ["graphql-codegen"; "-c"; path].

(** *** Sample inputs *)

Definition deployed : Construct := {| construct_app := {| local := false |} |}.
Definition local_dev : Construct := {| construct_app := {| local := true |} |}.

(** A tool that always exits with the given status. *)
Definition tool_exits (code : Z) : string → list string → SpawnSyncReturns :=
  λ _ _, {| status := Some code |}.

Definition graphql_handler : FunctionDefinition := HandlerPath "src/graphql.handler".

Definition graphql_props : ApolloApiProps :=
  {| server := Some graphql_handler; rootPath := Some "/graphql";
     codegen := Some "codegen.yml"; defaultPayloadFormatVersion := None;
     routes := None; options := ∅ |}.

(** The configuration with a codegen path and nothing else. *)
Definition codegen_only_props : ApolloApiProps :=
  {| server := None; rootPath := None; codegen := Some "codegen.yml";
     defaultPayloadFormatVersion := None; routes := None; options := ∅ |}.

(** A configuration with a server and an empty route map. *)
Definition routes_props : ApolloApiProps :=
  {| server := Some graphql_handler; rootPath := None; codegen := None;
     defaultPayloadFormatVersion := None; routes := Some ∅; options := ∅ |}.

(** What the generic construct receives for [graphql_props]. *)
Definition graphql_api_props : ApiProps :=
  {| api_routes := Some (server_routes "/graphql" graphql_handler);
     api_defaultPayloadFormatVersion := Some V1;
     api_codegen := Some "codegen.yml";
     api_options := ∅ |}.

(** The instance constructed from [graphql_props] under the id Api. *)
Definition graphql_api : ApolloApi :=
  {| super :=
       {| node_id := "Api";
          functions := server_routes "/graphql" graphql_handler;
          bindings :=
            <["POST /graphql" := {| integration_ref := 0 |}]>
              {["GET /graphql" := {| integration_ref := 0 |}]};
          integrations :=
            [("GET /graphql", {| route_function := graphql_handler |},
              "Lambda_GET /graphql")] |};
     lambdaIntegration := Some {| integration_ref := 0 |};
     this_rootPath := Some "/graphql";
     this_props := Some graphql_props |}.

Definition sample_metadata : Api → gmap string JsField :=
  λ a, {["type" := Plain (JsString "Api")]}.

(** *** Calls of the methods, in any order *)

Inductive Call : Type :=
| CallCreateFunctionIntegration (r : Request)
| CallGetConstructMetadata
| CallServerFunction.

(** The instance after one call, whether the call returned or threw. *)
Definition after_call (Api_getConstructMetadata : Api → gmap string JsField)
    (c : Call) (this : ApolloApi) : ApolloApi :=
  match c with
  | CallCreateFunctionIntegration r => (request r this).2
  | CallGetConstructMetadata =>
      (getConstructMetadata Api_getConstructMetadata this).2
  | CallServerFunction => (serverFunction this).2
  end.

Definition after_calls (Api_getConstructMetadata : Api → gmap string JsField)
    (cs : list Call) (this : ApolloApi) : ApolloApi :=
  foldl (λ this c, after_call Api_getConstructMetadata c this) this cs.

(** The handles that the requests among the calls return, in order. *)
Fixpoint handles_of_calls (Api_getConstructMetadata : Api → gmap string JsField)
    (cs : list Call) (this : ApolloApi) : list HttpRouteIntegration :=
  match cs with
  | [] => []
  | c :: cs =>
      match c with
      | CallCreateFunctionIntegration r =>
          match (request r this).1 with
          | Return handle => [handle]
          | Throw _ => []
          end
      | _ => []
      end
      ++ handles_of_calls Api_getConstructMetadata cs
           (after_call Api_getConstructMetadata c this)
  end.

(** A configuration with an empty root path, and an instance whose
    parent metadata already has an entry named local. *)
Definition empty_root_props : ApolloApiProps :=
  {| server := Some graphql_handler; rootPath := Some EmptyString;
     codegen := None; defaultPayloadFormatVersion := None;
     routes := None; options := ∅ |}.

Definition metadata_with_local : Api → gmap string JsField :=
  λ a, {["local" := Plain (JsString "parent"); "type" := Plain (JsString "Api")]}.

(** Unfold the plumbing of [Exec] in a goal. *)
Ltac run_exec :=
  unfold mbind, mret, Exec_bind, Exec_ret, get_state, throw, when, emit,
    on_super, set_lambdaIntegration; cbn [fst snd].

(** * Properties *)

(** ** The shared integration *)

Lemma createFunctionIntegration_first scope routeKey routeProps postfixName this :
  lambdaIntegration this = None →
  createFunctionIntegration scope routeKey routeProps postfixName this =
    (Return {| integration_ref := length (integrations (super this)) |},
     {| super :=
          (Api_createFunctionIntegration scope routeKey routeProps postfixName
             (super this)).2;
        lambdaIntegration :=
          Some {| integration_ref := length (integrations (super this)) |};
        this_rootPath := this_rootPath this;
        this_props := this_props this |}).
Proof.
  intros Hnone. unfold createFunctionIntegration, mbind, Exec_bind, get_state.
  rewrite Hnone. reflexivity.
Qed.

Lemma createFunctionIntegration_cached scope routeKey routeProps postfixName this cached :
  lambdaIntegration this = Some cached →
  createFunctionIntegration scope routeKey routeProps postfixName this =
    (Return cached, this).
Proof.
  intros Hsome. unfold createFunctionIntegration, mbind, Exec_bind, get_state.
  rewrite Hsome. reflexivity.
Qed.

Lemma requests_cached rs this cached :
  lambdaIntegration this = Some cached →
  requests rs this = (Return (replicate (length rs) cached), this).
Proof.
  intros Hsome. induction rs as [|r rs IH]; [reflexivity|].
  cbn [requests]. unfold mbind, Exec_bind, request.
  rewrite (createFunctionIntegration_cached _ _ _ _ _ _ Hsome).
  fold (@mbind (Exec ApolloApi) _). unfold mbind, Exec_bind in IH |- *.
  rewrite IH. reflexivity.
Qed.

(** C1.  On an instance whose integration has not been created yet, the
    first request delegates to the default creation logic of the generic
    construct with the arguments of that request and stores the handle;
    every later request, whatever its route key, route props and name
    suffix, returns that very handle and leaves the instance as it is, so
    the whole sequence of requests makes the default logic create exactly
    one integration object. *)
Theorem createFunctionIntegration_single_handle
    (this : ApolloApi) (first : Request) (later : list Request) :
  lambdaIntegration this = None →
  ∃ (handle : HttpRouteIntegration) (base : Api),
    default_request first (super this) = (Return handle, base)
    ∧ requests (first :: later) this =
        (Return (handle :: replicate (length later) handle),
         {| super := base;
            lambdaIntegration := Some handle;
            this_rootPath := this_rootPath this;
            this_props := this_props this |})
    ∧ integrations base =
        integrations (super this)
        ++ [(request_routeKey first, request_routeProps first,
             request_postfixName first)].
Proof.
  intros Hnone.
  exists {| integration_ref := length (integrations (super this)) |}.
  exists (default_request first (super this)).2.
  split; [reflexivity|]. split; [|reflexivity].
  cbn [requests]. unfold mbind at 1. unfold Exec_bind at 1. unfold request at 1.
  rewrite (createFunctionIntegration_first _ _ _ _ _ Hnone).
  unfold mbind, Exec_bind.
  erewrite requests_cached by reflexivity. reflexivity.
Qed.

(** ** The generic constructor run on an [ApolloApi] *)

Lemma Api_addRoute_spec scope route this :
  ∃ this',
    Api_addRoute scope route this = (Return tt, this')
    ∧ functions (super this') = <[route.1 := route.2]> (functions (super this))
    ∧ node_id (super this') = node_id (super this)
    ∧ (shares_integration this → shares_integration this').
Proof.
  unfold Api_addRoute. destruct (lambdaIntegration this) as [cached|] eqn:Hcache.
  - unfold mbind at 1. unfold Exec_bind at 1.
    rewrite (createFunctionIntegration_cached _ _ _ _ _ _ Hcache).
    run_exec. cbn. eexists. do 3 (split; [reflexivity|]).
    unfold shares_integration. cbn. rewrite Hcache.
    intros [Hreg [Hone Hbound]]. split; [|split; [exact Hone|]].
    + intros routeKey. rewrite !lookup_insert. case_decide; eauto.
    + intros routeKey bound. rewrite lookup_insert.
      case_decide; [congruence | apply Hbound].
  - unfold mbind at 1. unfold Exec_bind at 1.
    rewrite (createFunctionIntegration_first _ _ _ _ _ Hcache).
    run_exec. cbn. eexists. do 3 (split; [reflexivity|]).
    unfold shares_integration. cbn. rewrite Hcache.
    intros [Hreg [Hnil Hempty]]. rewrite Hnil, Hempty in *.
    split; [|split; [reflexivity|]].
    + intros routeKey. rewrite !lookup_insert. case_decide; eauto.
    + intros routeKey bound. rewrite lookup_insert.
      case_decide; [cbn; congruence | by rewrite lookup_empty].
Qed.

Lemma Api_addRoutes_spec scope routes this :
  ∃ this',
    Api_addRoutes scope routes this = (Return tt, this')
    ∧ functions (super this') =
        foldl (λ registered route, <[route.1 := route.2]> registered)
          (functions (super this)) routes
    ∧ node_id (super this') = node_id (super this)
    ∧ (shares_integration this → shares_integration this').
Proof.
  revert this. induction routes as [|route routes IH]; intros this.
  - exists this. do 3 (split; [reflexivity|]). auto.
  - destruct (Api_addRoute_spec scope route this)
      as (this1 & Hrun & Hfun & Hid & Hinv).
    destruct (IH this1) as (this2 & Hrun' & Hfun' & Hid' & Hinv').
    exists this2. split; [|split; [|split]].
    + cbn [Api_addRoutes]. unfold mbind, Exec_bind. rewrite Hrun. exact Hrun'.
    + rewrite Hfun'. cbn [foldl]. by rewrite Hfun.
    + congruence.
    + auto.
Qed.

Lemma foldl_insert_fresh {A} (l : list (string * A)) (m : gmap string A) k :
  k ∉ l.*1 →
  foldl (λ registered route, <[route.1 := route.2]> registered) m l !! k = m !! k.
Proof.
  revert m. induction l as [|[j y] l IH]; intros m Hk; [reflexivity|].
  rewrite fmap_cons, not_elem_of_cons in Hk. destruct Hk as [Hne Hk].
  cbn [foldl]. rewrite (IH _ Hk). cbn. by rewrite lookup_insert_ne.
Qed.

Lemma foldl_insert_lookup {A} (l : list (string * A)) (m : gmap string A) k v :
  NoDup (l.*1) → (k, v) ∈ l →
  foldl (λ registered route, <[route.1 := route.2]> registered) m l !! k = Some v.
Proof.
  revert m. induction l as [|[j y] l IH]; intros m Hnodup Hin.
  - by apply elem_of_nil in Hin.
  - rewrite fmap_cons in Hnodup. apply NoDup_cons in Hnodup as [Hfresh Hnodup].
    apply elem_of_cons in Hin as [Heq|Hin].
    + injection Heq as -> ->. cbn [foldl].
      rewrite (foldl_insert_fresh _ _ _ Hfresh). cbn. apply lookup_insert_eq.
    + cbn [foldl]. by apply IH.
Qed.

(** The generic constructor never throws; it registers the handler of
    every route of the route map and keeps the invariant. *)
Lemma Api_constructor_spec scope id props this :
  ∃ this',
    Api_constructor scope id props this = (Return tt, this')
    ∧ (∀ routeKey handler,
         default ∅ (api_routes props) !! routeKey = Some handler →
         Api_getFunction routeKey (super this') = Some handler)
    ∧ node_id (super this') = node_id (super this)
    ∧ (shares_integration this → shares_integration this').
Proof.
  unfold Api_constructor.
  destruct (Api_addRoutes_spec scope (map_to_list (default ∅ (api_routes props))) this)
    as (this' & Hrun & Hfun & Hid & Hinv).
  exists this'. split; [exact Hrun|]. split; [|by split].
  intros routeKey handler Hlookup. unfold Api_getFunction. rewrite Hfun.
  apply foldl_insert_lookup; [apply NoDup_fst_map_to_list|].
  by apply elem_of_map_to_list.
Qed.

(** ** The derived route map *)

Lemma verbs_differ (rootPath : string) : "GET " +:+ rootPath ≠ "POST " +:+ rootPath.
Proof. cbn. discriminate. Qed.

Lemma server_routes_get rootPath handler :
  server_routes rootPath handler !! ("GET " +:+ rootPath) = Some handler.
Proof.
  unfold server_routes.
  rewrite lookup_insert_ne by (symmetry; apply verbs_differ).
  apply lookup_insert_eq.
Qed.

Lemma server_routes_post rootPath handler :
  server_routes rootPath handler !! ("POST " +:+ rootPath) = Some handler.
Proof. unfold server_routes. apply lookup_insert_eq. Qed.

Lemma server_routes_size rootPath handler :
  size (server_routes rootPath handler) = 2.
Proof.
  unfold server_routes. rewrite map_size_insert_None.
  - by rewrite insert_empty, map_size_singleton.
  - rewrite lookup_insert_ne by apply verbs_differ. apply lookup_empty.
Qed.

Lemma server_routes_lookup rootPath handler routeKey found :
  server_routes rootPath handler !! routeKey = Some found →
  (routeKey = "GET " +:+ rootPath ∨ routeKey = "POST " +:+ rootPath)
  ∧ found = handler.
Proof.
  unfold server_routes. rewrite !lookup_insert, lookup_empty.
  repeat case_decide; naive_solver.
Qed.

(** ** The codegen block *)

Lemma run_codegen_skipped run_command scope id props log :
  (∀ path, codegen props = Some path → truthy_string path = false) →
  run_codegen run_command scope id props log = (Return tt, log).
Proof.
  intros Hfalsy. unfold run_codegen. destruct (codegen props) as [path|]; [|done].
  by rewrite (Hfalsy path eq_refl).
Qed.

Lemma run_codegen_local run_command scope id props log :
  local (App_of scope) = true →
  run_codegen run_command scope id props log = (Return tt, log).
Proof.
  intros Hlocal. unfold run_codegen. destruct (codegen props) as [path|]; [|done].
  rewrite Hlocal. by destruct (truthy_string path).
Qed.

Lemma run_codegen_spawns run_command scope id props path log :
  generates scope props path →
  run_codegen run_command scope id props log =
    (if status_not_zero (run_command "npx" (codegen_args path))
     then Throw (Error (codegen_failed id)) else Return tt,
     log ++ [SpawnSync "npx" (codegen_args path)]).
Proof.
  intros (Hpath & Htruthy & Hlocal). unfold run_codegen.
  rewrite Hpath, Htruthy, Hlocal. run_exec. unfold spawn_sync, codegen_args.
  by destruct (status_not_zero _).
Qed.

Lemma generates_dec scope props :
  (∃ path, generates scope props path)
  ∨ (local (App_of scope) = true
     ∨ ∀ path, codegen props = Some path → truthy_string path = false).
Proof.
  unfold generates. destruct (local (App_of scope)); [by auto|].
  destruct (codegen props) as [path|]; [|right; right; by intros].
  destruct (truthy_string path) eqn:Htruthy; [left; by exists path|].
  right; right. by intros ? [= <-].
Qed.

(** When the generation, if it runs, exits with status zero, the block
    returns, and it calls neither [super] nor anything but the tool. *)
Lemma run_codegen_passes run_command scope id props log :
  (∀ path, generates scope props path →
           status (run_command "npx" (codegen_args path)) = Some 0%Z) →
  ∃ events,
    run_codegen run_command scope id props log = (Return tt, log ++ events)
    ∧ super_calls events = []
    ∧ (local (App_of scope) = true → events = []).
Proof.
  intros Hzero. destruct (generates_dec scope props) as [[path Hgen]|[Hlocal|Hfalsy]].
  - exists [SpawnSync "npx" (codegen_args path)].
    rewrite (run_codegen_spawns _ _ _ _ _ _ Hgen).
    unfold status_not_zero. rewrite (Hzero _ Hgen). split; [done|]. split; [done|].
    destruct Hgen as (_ & _ & Hlocal). congruence.
  - exists []. rewrite app_nil_r. by rewrite run_codegen_local.
  - exists []. rewrite app_nil_r. by rewrite run_codegen_skipped.
Qed.

(** ** The constructor *)

Lemma shares_integration_blank id : shares_integration (ApolloApi_blank id).
Proof.
  split; [|by split]. intros routeKey. cbn. rewrite lookup_empty.
  by intros [? ?].
Qed.

Lemma call_super_spec scope id props log :
  ∃ this,
    call_super scope id props log = (Return this, log ++ [SuperCall id props])
    ∧ (∀ routeKey handler,
         default ∅ (api_routes props) !! routeKey = Some handler →
         Api_getFunction routeKey (super this) = Some handler)
    ∧ node_id (super this) = id
    ∧ shares_integration this.
Proof.
  destruct (Api_constructor_spec scope id props (ApolloApi_blank id))
    as (this & Hrun & Hfun & Hid & Hinv).
  exists this. unfold call_super. run_exec. rewrite Hrun.
  split; [reflexivity|]. split; [exact Hfun|]. split; [exact Hid|].
  apply Hinv, shares_integration_blank.
Qed.

(** A missing or falsy [server] stops the constructor at its first
    check, whether or not there is a props object at all. *)
Lemma constructor_missing_server run_command scope id props log :
  (∀ handler, props ≫= server = Some handler → truthy_function handler = false) →
  ApolloApi_constructor run_command scope id props log =
    (Throw (Error (missing_server id)), log).
Proof.
  intros Hfalsy. unfold ApolloApi_constructor.
  destruct props as [props|]; cbn in *; [|reflexivity].
  destruct (server props) as [handler|]; [|reflexivity].
  by rewrite (Hfalsy handler eq_refl).
Qed.

(** With a truthy [server], the constructor goes on to the check of
    [routes], the codegen block and the call into [super]. *)
Lemma constructor_server_ok run_command scope id props handler log :
  server props = Some handler → truthy_function handler = true →
  ApolloApi_constructor run_command scope id (Some props) log =
    (if truthy_opt_object (routes props)
     then throw (Error (routes_not_allowed id))
     else
       run_codegen run_command scope id props;;
       this ← call_super scope id
         {| api_routes := Some (server_routes (default "/" (rootPath props)) handler);
            api_defaultPayloadFormatVersion :=
              Some (or_version (defaultPayloadFormatVersion props) V1);
            api_codegen := codegen props;
            api_options := options props |};
       mret {| super := super this;
               lambdaIntegration := lambdaIntegration this;
               this_rootPath := Some (default "/" (rootPath props));
               this_props := Some props |}) log.
Proof.
  intros Hserver Htruthy. unfold ApolloApi_constructor.
  change (default no_props (Some props)) with props.
  rewrite Hserver, Htruthy. reflexivity.
Qed.

(** A valid configuration whose generation, if it runs, exits with status
    zero: the constructor returns the instance, after the generic
    constructor has been called exactly once. *)
Lemma constructor_valid run_command scope id props handler log :
  valid props handler →
  (∀ path, generates scope props path →
           status (run_command "npx" (codegen_args path)) = Some 0%Z) →
  ∃ this events,
    ApolloApi_constructor run_command scope id (Some props) log =
      (Return this, log ++ events)
    ∧ super_calls events =
        [(id,
          {| api_routes := Some (server_routes (default "/" (rootPath props)) handler);
             api_defaultPayloadFormatVersion :=
               Some (or_version (defaultPayloadFormatVersion props) V1);
             api_codegen := codegen props;
             api_options := options props |})]
    ∧ (local (App_of scope) = true → spawned events = [])
    ∧ this_rootPath this = Some (default "/" (rootPath props))
    ∧ this_props this = Some props
    ∧ node_id (super this) = id
    ∧ (∀ routeKey found,
         server_routes (default "/" (rootPath props)) handler !! routeKey
         = Some found →
         Api_getFunction routeKey (super this) = Some found)
    ∧ shares_integration this.
Proof.
  intros (Hserver & Htruthy & Hroutes) Hzero.
  rewrite (constructor_server_ok _ _ _ _ _ _ Hserver Htruthy), Hroutes.
  cbn [truthy_opt_object].
  destruct (run_codegen_passes run_command scope id props log Hzero)
    as (spawns & Hcodegen & Hnosuper & Hlocal).
  unfold mbind at 1. unfold Exec_bind at 1. rewrite Hcodegen.
  match goal with |- context [call_super scope id ?p] =>
    destruct (call_super_spec scope id p (log ++ spawns))
      as (built & Hsuper & Hfun & Hid & Hinv)
  end.
  unfold mbind, Exec_bind. rewrite Hsuper.
  eexists _, (spawns ++ [SuperCall id _]).
  split; [by rewrite <- (assoc_L (++))|].
  split; [unfold super_calls in *; by rewrite omap_app, Hnosuper|].
  split; [intros Hl; by rewrite (Hlocal Hl)|].
  do 2 (split; [reflexivity|]). split; [exact Hid|]. split; [|exact Hinv].
  exact Hfun.
Qed.

(** If the constructor returns, the configuration was valid and the
    instance is the one described by [constructor_valid]. *)
Lemma constructor_returns run_command scope id props log this log' :
  ApolloApi_constructor run_command scope id props log = (Return this, log') →
  ∃ config handler,
    props = Some config ∧ valid config handler
    ∧ this_rootPath this = Some (default "/" (rootPath config))
    ∧ this_props this = Some config
    ∧ node_id (super this) = id
    ∧ (∀ routeKey found,
         server_routes (default "/" (rootPath config)) handler !! routeKey
         = Some found →
         Api_getFunction routeKey (super this) = Some found)
    ∧ shares_integration this.
Proof.
  intros Hrun.
  destruct props as [config|];
    [|by rewrite constructor_missing_server in Hrun].
  destruct (server config) as [handler|] eqn:Hserver;
    [|rewrite constructor_missing_server in Hrun; [done|]; cbn; by rewrite Hserver].
  destruct (truthy_function handler) eqn:Htruthy;
    [|rewrite constructor_missing_server in Hrun; [done|];
      cbn; rewrite Hserver; congruence].
  rewrite (constructor_server_ok _ _ _ _ _ _ Hserver Htruthy) in Hrun.
  destruct (routes config) as [supplied|] eqn:Hroutes; [done|].
  cbn [truthy_opt_object] in Hrun.
  unfold mbind at 1 in Hrun. unfold Exec_bind at 1 in Hrun.
  destruct (run_codegen run_command scope id config log) as [[[]|e] log1]; [|done].
  match type of Hrun with context [call_super scope id ?p] =>
    destruct (call_super_spec scope id p log1)
      as (built & Hsuper & Hfun & Hid & Hinv)
  end.
  unfold mbind, Exec_bind in Hrun. rewrite Hsuper in Hrun.
  injection Hrun as <- <-.
  exists config, handler. split; [reflexivity|].
  split; [exact (conj Hserver (conj Htruthy Hroutes))|].
  do 2 (split; [reflexivity|]). split; [exact Hid|].
  split; [exact Hfun | exact Hinv].
Qed.

(** ** Messages name the construct *)

Lemma append_assoc (a b c : string) : (a +:+ b) +:+ c = a +:+ (b +:+ c).
Proof.
  induction a as [|ch a IH]; [reflexivity | exact (f_equal (String ch) IH)].
Qed.

Lemma missing_server_names_id id :
  ∃ before after, missing_server id = before +:+ id +:+ after.
Proof.
  exists ("Missing " +:+ quoted "server" +:+ " in the " +:+ dquote),
    (dquote +:+ " ApolloApi").
  unfold missing_server, quoted. by rewrite !append_assoc.
Qed.

Lemma codegen_failed_names_id id :
  ∃ before after, codegen_failed id = before +:+ id +:+ after.
Proof.
  exists ("Failed to generate the schema for the " +:+ dquote),
    (dquote +:+ " ApolloApi").
  unfold codegen_failed, quoted. by rewrite !append_assoc.
Qed.


(** ** The claims about the constructor *)

(** C2.  For a valid configuration (whose schema generation, when it
    runs, exits with status zero) the constructor returns, and the route
    map it passes to the generic construct has exactly two entries, the
    keys GET and POST followed by a space and the root path, both for the
    supplied server; the root path is the slash when the configuration
    has none. *)
Theorem route_map_has_get_and_post run_command scope id props handler log :
  valid props handler →
  (∀ path, generates scope props path →
           status (run_command "npx" (codegen_args path)) = Some 0%Z) →
  ∃ this events apiProps routeMap,
    ApolloApi_constructor run_command scope id (Some props) log =
      (Return this, log ++ events)
    ∧ super_calls events = [(id, apiProps)]
    ∧ api_routes apiProps = Some routeMap
    ∧ size routeMap = 2
    ∧ routeMap !! ("GET " +:+ default "/" (rootPath props)) = Some handler
    ∧ routeMap !! ("POST " +:+ default "/" (rootPath props)) = Some handler
    ∧ (∀ routeKey found, routeMap !! routeKey = Some found →
         (routeKey = "GET " +:+ default "/" (rootPath props)
          ∨ routeKey = "POST " +:+ default "/" (rootPath props))
         ∧ found = handler)
    ∧ (rootPath props = None →
       routeMap !! "GET /" = Some handler ∧ routeMap !! "POST /" = Some handler).
Proof.
  intros Hvalid Hzero.
  destruct (constructor_valid run_command scope id props handler log Hvalid Hzero)
    as (this & events & Hrun & Hsuper & _).
  exists this, events. eexists _, (server_routes (default "/" (rootPath props)) handler).
  split; [exact Hrun|]. split; [exact Hsuper|]. split; [reflexivity|].
  split; [apply server_routes_size|].
  split; [apply server_routes_get|]. split; [apply server_routes_post|].
  split; [apply server_routes_lookup|].
  intros ->. split; [apply (server_routes_get "/") | apply (server_routes_post "/")].
Qed.

(** C3.  When the configuration has no server, the constructor throws
    an error whose message is the missing-server text with the construct
    id in it, and the process is left as it was: no command is spawned
    and the generic construct receives no route map. *)
Theorem missing_server_fails_first run_command scope id props log :
  server props = None →
  ApolloApi_constructor run_command scope id (Some props) log =
    (Throw (Error (missing_server id)), log)
  ∧ ∃ before after, missing_server id = before +:+ id +:+ after.
Proof.
  intros Hnone. split; [|apply missing_server_names_id].
  apply constructor_missing_server. cbn. by rewrite Hnone.
Qed.

(** C4.  When the configuration has a route map, whatever is in it, and
    a server that passes the first check, the constructor throws the error
    that asks for the server option instead of the routes, and nothing is
    spawned; when the server does not pass the first check, the error is
    the one of that check, which runs before. *)
Theorem routes_with_server_rejected run_command scope id props supplied log :
  routes props = Some supplied →
  (∀ handler, server props = Some handler → truthy_function handler = true →
     ApolloApi_constructor run_command scope id (Some props) log =
       (Throw (Error (routes_not_allowed id)), log))
  ∧ ((∀ handler, server props = Some handler → truthy_function handler = false) →
     ApolloApi_constructor run_command scope id (Some props) log =
       (Throw (Error (missing_server id)), log)).
Proof.
  intros Hroutes. split.
  - intros handler Hserver Htruthy.
    rewrite (constructor_server_ok _ _ _ _ _ _ Hserver Htruthy), Hroutes.
    reflexivity.
  - intros Hfalsy. apply constructor_missing_server. exact Hfalsy.
Qed.

(** C5.  For a valid configuration with a codegen path, in an app that
    is not local, when the generation tool ends with a status other than
    zero the constructor throws the error of the failed generation, with
    the construct id in its message; the tool was spawned once with the
    path, and the generic construct was never called. *)
Theorem failed_codegen_aborts run_command scope id props handler path log :
  valid props handler →
  generates scope props path →
  status (run_command "npx" (codegen_args path)) ≠ Some 0%Z →
  ∃ events,
    ApolloApi_constructor run_command scope id (Some props) log =
      (Throw (Error (codegen_failed id)), log ++ events)
    ∧ spawned events = [("npx", ["graphql-codegen"; "-c"; path])]
    ∧ super_calls events = []
    ∧ ∃ before after, codegen_failed id = before +:+ id +:+ after.
Proof.
  intros (Hserver & Htruthy & Hroutes) Hgen Hstatus.
  exists [SpawnSync "npx" (codegen_args path)].
  split; [|split; [reflexivity|split; [reflexivity|apply codegen_failed_names_id]]].
  rewrite (constructor_server_ok _ _ _ _ _ _ Hserver Htruthy), Hroutes.
  cbn [truthy_opt_object]. unfold mbind at 1. unfold Exec_bind at 1.
  rewrite (run_codegen_spawns _ _ _ _ _ _ Hgen).
  unfold status_not_zero.
  destruct (status (run_command "npx" (codegen_args path))) as [[| |]|];
    try reflexivity. by destruct Hstatus.
Qed.

(** C6.  In a local app, for a configuration with a codegen path, the
    constructor spawns no command at all; the check of the server still
    runs, so a configuration without a server is refused with the
    missing-server error, and a valid configuration goes through: the
    generic construct is called once, with the derived route map, and the
    instance is returned. *)
Theorem local_mode_never_spawns run_command scope id props path log :
  local (App_of scope) = true →
  codegen props = Some path →
  ∃ outcome events,
    ApolloApi_constructor run_command scope id (Some props) log =
      (outcome, log ++ events)
    ∧ spawned events = []
    ∧ (server props = None → outcome = Throw (Error (missing_server id)))
    ∧ (∀ handler, valid props handler →
         ∃ this apiProps,
           outcome = Return this
           ∧ super_calls events = [(id, apiProps)]
           ∧ api_routes apiProps =
               Some (server_routes (default "/" (rootPath props)) handler)
           ∧ this_props this = Some props).
Proof.
  intros Hlocal _.
  destruct (server props) as [handler|] eqn:Hserver.
  - destruct (truthy_function handler) eqn:Htruthy.
    + destruct (routes props) as [supplied|] eqn:Hroutes.
      * exists (Throw (Error (routes_not_allowed id))), [].
        rewrite app_nil_r.
        rewrite (constructor_server_ok _ _ _ _ _ _ Hserver Htruthy), Hroutes.
        split; [reflexivity|]. split; [reflexivity|]. split; [discriminate|].
        intros h (_ & _ & Hnone). congruence.
      * assert (Hvalid : valid props handler) by (by repeat split).
        destruct (constructor_valid run_command scope id props handler log Hvalid)
          as (this & events & Hrun & Hsuper & Hspawn & _ & Hprops & _).
        { intros p (_ & _ & Hnot). congruence. }
        exists (Return this), events. split; [exact Hrun|].
        split; [exact (Hspawn Hlocal)|]. split; [discriminate|].
        intros h (Hh & _ & _). assert (h = handler) as -> by congruence.
        eexists this, _. split; [reflexivity|]. split; [exact Hsuper|].
        split; [reflexivity | exact Hprops].
    + exists (Throw (Error (missing_server id))), []. rewrite app_nil_r.
      split; [|split; [reflexivity|split; [reflexivity|]]].
      * apply constructor_missing_server. cbn. rewrite Hserver. congruence.
      * intros h (Hh & Ht & _). congruence.
  - exists (Throw (Error (missing_server id))), []. rewrite app_nil_r.
    split; [|split; [reflexivity|split; [reflexivity|]]].
    + apply constructor_missing_server. cbn. by rewrite Hserver.
    + intros h (Hh & _). congruence.
Qed.


(** C10.  Without any props object the constructor throws the same
    missing-server error as for an empty configuration, and not a type
    error from reading a field of nothing; the process is left as it
    was. *)
Theorem absent_props_fail_as_missing_server run_command scope id log :
  ApolloApi_constructor run_command scope id None log =
    (Throw (Error (missing_server id)), log)
  ∧ ApolloApi_constructor run_command scope id None log =
    ApolloApi_constructor run_command scope id (Some no_props) log.
Proof.
  split; [|symmetry]; by apply constructor_missing_server.
Qed.

(** ** The claims about the methods *)

(** C7.  On an instance that the constructor has returned, the getter
    returns the handler that the configuration gave as its server, found
    under the key GET, a space and the root path, and leaves the instance
    as it is.  On any instance where that lookup finds nothing, the getter
    throws an error that names the construct instead of returning. *)
Theorem serverFunction_returns_server run_command scope id props log this log' :
  ApolloApi_constructor run_command scope id props log = (Return this, log') →
  (∃ config handler,
     props = Some config
     ∧ server config = Some handler
     ∧ Api_getFunction ("GET " +:+ default "/" (rootPath config)) (super this)
       = Some handler
     ∧ serverFunction this = (Return handler, this))
  ∧ (∀ other : ApolloApi,
       (∀ found,
          Api_getFunction ("GET " +:+ template_hole (this_rootPath other))
            (super other) = Some found →
          truthy_function found = false) →
       serverFunction other =
         (Throw (Error (no_server_function (node_id (super other)))), other)).
Proof.
  intros Hrun. split.
  - destruct (constructor_returns _ _ _ _ _ _ _ Hrun)
      as (config & handler & -> & (Hserver & Htruthy & _) & Hroot & _ & _ & Hfun & _).
    pose proof (Hfun _ _ (server_routes_get _ _)) as Hget.
    exists config, handler. do 2 (split; [reflexivity || assumption|]).
    split; [exact Hget|].
    unfold serverFunction. run_exec. rewrite Hroot. cbn [template_hole].
    by rewrite Hget, Htruthy.
  - intros other Hfalsy. unfold serverFunction. run_exec.
    destruct (Api_getFunction _ _) as [found|]; [|reflexivity].
    by rewrite (Hfalsy found eq_refl).
Qed.

(** C8.  On an instance that the constructor has returned, the metadata
    is the metadata of the generic construct with one entry set: the
    entry [local] is an object with the single field [codegen], which
    holds the configured path as a string when the configuration has one
    and [undefined] when it has none; every other entry is the one of the
    parent, so without [local] the result is the parent's record without
    [local].  The call returns, leaves the instance as it is, and the
    record of the parent read from the instance after the call is the one
    read before it. *)
Theorem getConstructMetadata_adds_local
    run_command Api_getConstructMetadata scope id props log this log' :
  ApolloApi_constructor run_command scope id props log = (Return this, log') →
  ∃ config metadata,
    props = Some config
    ∧ getConstructMetadata Api_getConstructMetadata this = (Return metadata, this)
    ∧ (∀ path, codegen config = Some path →
         metadata !! "local" = Some (Object {["codegen" := JsString path]}))
    ∧ (codegen config = None →
         metadata !! "local" = Some (Object {["codegen" := JsUndefined]}))
    ∧ (∀ key, key ≠ "local" →
         metadata !! key = Api_getConstructMetadata (super this) !! key)
    ∧ delete "local" metadata
      = delete "local" (Api_getConstructMetadata (super this))
    ∧ Api_getConstructMetadata
        (super (getConstructMetadata Api_getConstructMetadata this).2)
      = Api_getConstructMetadata (super this).
Proof.
  intros Hrun.
  destruct (constructor_returns _ _ _ _ _ _ _ Hrun)
    as (config & handler & -> & _ & _ & Hprops & _).
  assert (Hcall : getConstructMetadata Api_getConstructMetadata this =
            (Return (<["local" := Object
                         {["codegen" := js_of_opt_string (codegen config)]}]>
                       (Api_getConstructMetadata (super this))), this)).
  { unfold getConstructMetadata. run_exec. by rewrite Hprops. }
  exists config. eexists. split; [reflexivity|]. split; [exact Hcall|].
  split; [|split; [|split; [|split]]].
  - intros path ->. apply lookup_insert_eq.
  - intros ->. apply lookup_insert_eq.
  - intros key Hkey. by rewrite lookup_insert_ne.
  - apply delete_insert_eq.
  - by rewrite Hcall.
Qed.

(** ** The invariant on constructed instances *)

(** A request for an integration keeps the invariant, whatever it asks
    for. *)
Lemma request_keeps_invariant r this :
  shares_integration this →
  shares_integration (request r this).2.
Proof.
  unfold request, shares_integration.
  destruct (lambdaIntegration this) as [cached|] eqn:Hcache.
  - rewrite (createFunctionIntegration_cached _ _ _ _ _ _ Hcache). cbn.
    by rewrite Hcache.
  - rewrite (createFunctionIntegration_first _ _ _ _ _ Hcache). cbn.
    intros [Hreg [Hnil Hempty]]. split; [exact Hreg|].
    rewrite Hnil, Hempty. split; [reflexivity|].
    intros routeKey bound. by rewrite lookup_empty.
Qed.


(** * The claims on the sample inputs *)

(** The construction of the scenario: the tool is spawned once, the
    generic construct is called once, and the instance holds the one
    integration. *)
Example graphql_api_constructed :
  ApolloApi_constructor (tool_exits 0) deployed "Api" (Some graphql_props) [] =
    (Return graphql_api,
     [SpawnSync "npx" (codegen_args "codegen.yml");
      SuperCall "Api" graphql_api_props]).
Proof. vm_compute. reflexivity. Qed.

Lemma createFunctionIntegration_single_handle_witness :
  let scope := {| construct_app := {| local := false |} |} in
  let get := {| request_scope := scope; request_routeKey := "GET /";
                request_routeProps := {| route_function := HandlerPath "src/graphql.handler" |};
                request_postfixName := "Lambda_GET_/" |} in
  let post := {| request_scope := scope; request_routeKey := "POST /";
                 request_routeProps := {| route_function := FunctionObject 7 |};
                 request_postfixName := "Lambda_POST_/" |} in
  lambdaIntegration (ApolloApi_blank "Api") = None
  ∧ ∃ handle base,
      default_request get (super (ApolloApi_blank "Api")) = (Return handle, base)
      ∧ requests [get; post; post] (ApolloApi_blank "Api") =
          (Return [handle; handle; handle],
           {| super := base; lambdaIntegration := Some handle;
              this_rootPath := None; this_props := None |})
      ∧ integrations base =
          [("GET /", {| route_function := HandlerPath "src/graphql.handler" |},
            "Lambda_GET_/")].
Proof.
  intros scope get post. split; [reflexivity|].
  exact (createFunctionIntegration_single_handle
           (ApolloApi_blank "Api") get [post; post] eq_refl).
Defined.

Lemma route_map_has_get_and_post_witness :
  valid graphql_props graphql_handler
  ∧ (∀ path, generates deployed graphql_props path →
             status (tool_exits 0 "npx" (codegen_args path)) = Some 0%Z)
  ∧ ∃ this events apiProps routeMap,
      ApolloApi_constructor (tool_exits 0) deployed "Api" (Some graphql_props) [] =
        (Return this, [] ++ events)
      ∧ super_calls events = [("Api", apiProps)]
      ∧ api_routes apiProps = Some routeMap
      ∧ size routeMap = 2
      ∧ routeMap !! ("GET " +:+ default "/" (rootPath graphql_props))
        = Some graphql_handler
      ∧ routeMap !! ("POST " +:+ default "/" (rootPath graphql_props))
        = Some graphql_handler
      ∧ (∀ routeKey found, routeMap !! routeKey = Some found →
           (routeKey = "GET " +:+ default "/" (rootPath graphql_props)
            ∨ routeKey = "POST " +:+ default "/" (rootPath graphql_props))
           ∧ found = graphql_handler)
      ∧ (rootPath graphql_props = None →
         routeMap !! "GET /" = Some graphql_handler
         ∧ routeMap !! "POST /" = Some graphql_handler).
Proof.
  assert (Hvalid : valid graphql_props graphql_handler)
    by (repeat split; reflexivity).
  assert (Hzero : ∀ path, generates deployed graphql_props path →
            status (tool_exits 0 "npx" (codegen_args path)) = Some 0%Z)
    by (intros path _; reflexivity).
  split; [exact Hvalid|]. split; [exact Hzero|].
  exact (route_map_has_get_and_post (tool_exits 0) deployed "Api"
           graphql_props graphql_handler [] Hvalid Hzero).
Defined.

Lemma missing_server_fails_first_witness :
  server codegen_only_props = None
  ∧ ApolloApi_constructor (tool_exits 1) deployed "Api" (Some codegen_only_props) [] =
      (Throw (Error (missing_server "Api")), [])
  ∧ ∃ before after, missing_server "Api" = before +:+ "Api" +:+ after.
Proof.
  split; [reflexivity|].
  exact (missing_server_fails_first (tool_exits 1) deployed "Api"
           codegen_only_props [] eq_refl).
Defined.

Lemma routes_with_server_rejected_witness :
  routes routes_props = Some ∅
  ∧ (∀ handler, server routes_props = Some handler →
       truthy_function handler = true →
       ApolloApi_constructor (tool_exits 0) deployed "Api" (Some routes_props) [] =
         (Throw (Error (routes_not_allowed "Api")), []))
  ∧ ((∀ handler, server routes_props = Some handler →
        truthy_function handler = false) →
     ApolloApi_constructor (tool_exits 0) deployed "Api" (Some routes_props) [] =
       (Throw (Error (missing_server "Api")), [])).
Proof.
  split; [reflexivity|].
  exact (routes_with_server_rejected (tool_exits 0) deployed "Api"
           routes_props ∅ [] eq_refl).
Defined.

Lemma failed_codegen_aborts_witness :
  valid graphql_props graphql_handler
  ∧ generates deployed graphql_props "codegen.yml"
  ∧ status (tool_exits 1 "npx" (codegen_args "codegen.yml")) ≠ Some 0%Z
  ∧ ∃ events,
      ApolloApi_constructor (tool_exits 1) deployed "Api" (Some graphql_props) [] =
        (Throw (Error (codegen_failed "Api")), [] ++ events)
      ∧ spawned events = [("npx", ["graphql-codegen"; "-c"; "codegen.yml"])]
      ∧ super_calls events = []
      ∧ ∃ before after, codegen_failed "Api" = before +:+ "Api" +:+ after.
Proof.
  assert (Hvalid : valid graphql_props graphql_handler)
    by (repeat split; reflexivity).
  assert (Hgen : generates deployed graphql_props "codegen.yml")
    by (repeat split; reflexivity).
  assert (Hstatus : status (tool_exits 1 "npx" (codegen_args "codegen.yml"))
                    ≠ Some 0%Z) by (simpl; discriminate).
  split; [exact Hvalid|]. split; [exact Hgen|]. split; [exact Hstatus|].
  exact (failed_codegen_aborts (tool_exits 1) deployed "Api" graphql_props
           graphql_handler "codegen.yml" [] Hvalid Hgen Hstatus).
Defined.

Lemma local_mode_never_spawns_witness :
  local (App_of local_dev) = true
  ∧ codegen graphql_props = Some "codegen.yml"
  ∧ ∃ outcome events,
      ApolloApi_constructor (tool_exits 1) local_dev "Api" (Some graphql_props) [] =
        (outcome, [] ++ events)
      ∧ spawned events = []
      ∧ (server graphql_props = None →
         outcome = Throw (Error (missing_server "Api")))
      ∧ (∀ handler, valid graphql_props handler →
           ∃ this apiProps,
             outcome = Return this
             ∧ super_calls events = [("Api", apiProps)]
             ∧ api_routes apiProps =
                 Some (server_routes (default "/" (rootPath graphql_props)) handler)
             ∧ this_props this = Some graphql_props).
Proof.
  split; [reflexivity|]. split; [reflexivity|].
  exact (local_mode_never_spawns (tool_exits 1) local_dev "Api" graphql_props
           "codegen.yml" [] eq_refl eq_refl).
Defined.


Lemma serverFunction_returns_server_witness :
  ApolloApi_constructor (tool_exits 0) deployed "Api" (Some graphql_props) [] =
    (Return graphql_api,
     [SpawnSync "npx" (codegen_args "codegen.yml");
      SuperCall "Api" graphql_api_props])
  ∧ (∃ config handler,
       Some graphql_props = Some config
       ∧ server config = Some handler
       ∧ Api_getFunction ("GET " +:+ default "/" (rootPath config))
           (super graphql_api) = Some handler
       ∧ serverFunction graphql_api = (Return handler, graphql_api))
  ∧ (∀ other : ApolloApi,
       (∀ found,
          Api_getFunction ("GET " +:+ template_hole (this_rootPath other))
            (super other) = Some found →
          truthy_function found = false) →
       serverFunction other =
         (Throw (Error (no_server_function (node_id (super other)))), other)).
Proof.
  assert (Hrun :
    ApolloApi_constructor (tool_exits 0) deployed "Api" (Some graphql_props) [] =
      (Return graphql_api,
       [SpawnSync "npx" (codegen_args "codegen.yml");
        SuperCall "Api" graphql_api_props]))
    by (vm_compute; reflexivity).
  split; [exact Hrun|].
  exact (serverFunction_returns_server (tool_exits 0) deployed "Api"
           (Some graphql_props) [] graphql_api _ Hrun).
Defined.

Lemma getConstructMetadata_adds_local_witness :
  ApolloApi_constructor (tool_exits 0) deployed "Api" (Some graphql_props) [] =
    (Return graphql_api,
     [SpawnSync "npx" (codegen_args "codegen.yml");
      SuperCall "Api" graphql_api_props])
  ∧ ∃ metadata,
      getConstructMetadata sample_metadata graphql_api = (Return metadata, graphql_api)
      ∧ metadata !! "local" =
          Some (Object {["codegen" := JsString "codegen.yml"]})
      ∧ metadata !! "type" = Some (Plain (JsString "Api"))
      ∧ delete "local" metadata = delete "local" (sample_metadata (super graphql_api)).
Proof.
  assert (Hrun :
    ApolloApi_constructor (tool_exits 0) deployed "Api" (Some graphql_props) [] =
      (Return graphql_api,
       [SpawnSync "npx" (codegen_args "codegen.yml");
        SuperCall "Api" graphql_api_props]))
    by (vm_compute; reflexivity).
  split; [exact Hrun|].
  destruct (getConstructMetadata_adds_local (tool_exits 0) sample_metadata deployed
              "Api" (Some graphql_props) [] graphql_api _ Hrun)
    as (config & metadata & Hconfig & Hcall & Hpath & _ & Hother & Hrest & _).
  injection Hconfig as <-.
  exists metadata. split; [exact Hcall|].
  split; [exact (Hpath "codegen.yml" eq_refl)|].
  split; [|exact Hrest].
  rewrite (Hother "type") by discriminate. reflexivity.
Defined.

(** ** Truthiness at the edges *)

(** An empty codegen path is falsy: the tool is not spawned even when the
    app is not local, and construction goes on to the generic construct. *)
Example empty_codegen_path_not_spawned :
  (ApolloApi_constructor (tool_exits 1) deployed "Api"
     (Some {| server := Some graphql_handler; rootPath := None;
              codegen := Some EmptyString; defaultPayloadFormatVersion := Some V2;
              routes := None; options := ∅ |}) []).2 =
    [SuperCall "Api"
       {| api_routes := Some (server_routes "/" graphql_handler);
          api_defaultPayloadFormatVersion := Some V2;
          api_codegen := Some EmptyString;
          api_options := ∅ |}].
Proof. vm_compute. reflexivity. Qed.

(** An empty handler path is falsy: it is refused like a missing server. *)
Example empty_handler_path_refused :
  ApolloApi_constructor (tool_exits 0) deployed "Api"
    (Some {| server := Some (HandlerPath EmptyString); rootPath := None;
             codegen := None; defaultPayloadFormatVersion := None;
             routes := None; options := ∅ |}) [] =
    (Throw (Error (missing_server "Api")), []).
Proof. reflexivity. Qed.

(** A tool that ends without an exit status fails the construction like
    a status other than zero. *)
Example null_status_fails :
  ApolloApi_constructor (λ _ _, {| status := None |}) deployed "Api"
    (Some graphql_props) [] =
    (Throw (Error (codegen_failed "Api")),
     [SpawnSync "npx" (codegen_args "codegen.yml")]).
Proof. reflexivity. Qed.

(** * Further properties of the class *)

(** ** Every way the constructor can end *)

(** X1.  Whatever the props (absent ones too), the app and the tool, the
    constructor ends in one of four ways and keeps the events that were
    logged before: the missing-server error or the routes error with
    nothing done; the failed-generation error after exactly one spawn and
    no call of the generic construct; or the instance, after at most one
    spawn followed by exactly one call of the generic construct.  It
    never throws a type error. *)
Theorem constructor_outcomes run_command scope id props log :
  ∃ outcome events,
    ApolloApi_constructor run_command scope id props log = (outcome, log ++ events)
    ∧ ((outcome = Throw (Error (missing_server id)) ∧ events = [])
       ∨ (outcome = Throw (Error (routes_not_allowed id)) ∧ events = [])
       ∨ (∃ path,
            outcome = Throw (Error (codegen_failed id))
            ∧ events = [SpawnSync "npx" (codegen_args path)])
       ∨ (∃ this apiProps,
            outcome = Return this
            ∧ (events = [SuperCall id apiProps]
               ∨ ∃ path,
                   events = [SpawnSync "npx" (codegen_args path);
                             SuperCall id apiProps]))).
Proof.
  destruct props as [config|]; cycle 1.
  { exists (Throw (Error (missing_server id))), []. rewrite app_nil_r.
    split; [by apply constructor_missing_server | by left]. }
  destruct (server config) as [handler|] eqn:Hserver; cycle 1.
  { exists (Throw (Error (missing_server id))), []. rewrite app_nil_r.
    split; [|by left]. apply constructor_missing_server. cbn. by rewrite Hserver. }
  destruct (truthy_function handler) eqn:Htruthy; cycle 1.
  { exists (Throw (Error (missing_server id))), []. rewrite app_nil_r.
    split; [|by left]. apply constructor_missing_server. cbn. rewrite Hserver.
    congruence. }
  rewrite (constructor_server_ok _ _ _ _ _ _ Hserver Htruthy).
  destruct (routes config) as [supplied|] eqn:Hroutes.
  { exists (Throw (Error (routes_not_allowed id))), []. rewrite app_nil_r.
    split; [reflexivity | right; by left]. }
  cbn [truthy_opt_object]. unfold mbind at 1. unfold Exec_bind at 1.
  destruct (generates_dec scope config) as [[path Hgen]|Hskip].
  - rewrite (run_codegen_spawns _ _ _ _ _ _ Hgen).
    destruct (status_not_zero _).
    + exists (Throw (Error (codegen_failed id))),
        [SpawnSync "npx" (codegen_args path)].
      split; [reflexivity|]. right; right; left. by exists path.
    + match goal with |- context [call_super scope id ?p] =>
        destruct (call_super_spec scope id p
                    (log ++ [SpawnSync "npx" (codegen_args path)]))
          as (built & Hsuper & _)
      end.
      unfold mbind, Exec_bind. rewrite Hsuper.
      eexists (Return _), [SpawnSync "npx" (codegen_args path); SuperCall id _].
      split; [by rewrite <- (assoc_L (++))|].
      right; right; right. eexists _, _. split; [reflexivity|].
      right. by exists path.
  - assert (Hrun : run_codegen run_command scope id config log = (Return tt, log)).
    { destruct Hskip as [Hlocal|Hfalsy];
        [by apply run_codegen_local | by apply run_codegen_skipped]. }
    rewrite Hrun.
    match goal with |- context [call_super scope id ?p] =>
      destruct (call_super_spec scope id p log) as (built & Hsuper & _)
    end.
    unfold mbind, Exec_bind. rewrite Hsuper.
    eexists (Return _), [SuperCall id _]. split; [reflexivity|].
    right; right; right. eexists _, _. split; [reflexivity|]. by left.
Qed.

(** ** The messages tell the checks and the constructs apart *)

Lemma append_length (a b : string) :
  String.length (a +:+ b) = String.length a + String.length b.
Proof.
  induction a as [|ch a IH]; [reflexivity|].
  change (S (String.length (a +:+ b)) = S (String.length a + String.length b)).
  by rewrite IH.
Qed.

Lemma append_cancel_r (a b s : string) : a +:+ s = b +:+ s → a = b.
Proof.
  revert b. induction a as [|ch a IH]; intros [|ch' b] Heq.
  - reflexivity.
  - apply (f_equal String.length) in Heq.
    change (String.length s = S (String.length (b +:+ s))) in Heq.
    rewrite append_length in Heq. lia.
  - apply (f_equal String.length) in Heq.
    change (S (String.length (a +:+ s)) = String.length s) in Heq.
    rewrite append_length in Heq. lia.
  - change (String ch (a +:+ s) = String ch' (b +:+ s)) in Heq.
    injection Heq as -> Heq. by rewrite (IH _ Heq).
Qed.

Lemma quoted_id_inj (before after id1 id2 : string) :
  before +:+ quoted id1 +:+ after = before +:+ quoted id2 +:+ after →
  id1 = id2.
Proof.
  intros Heq. apply (inj (String.app before)) in Heq.
  apply append_cancel_r in Heq. unfold quoted in Heq.
  apply (inj (String.app dquote)) in Heq. by apply append_cancel_r in Heq.
Qed.

Lemma messages_differ id1 id2 :
  missing_server id1 ≠ routes_not_allowed id2
  ∧ missing_server id1 ≠ codegen_failed id2
  ∧ routes_not_allowed id1 ≠ codegen_failed id2
  ∧ no_server_function id1 ≠ missing_server id2
  ∧ no_server_function id1 ≠ routes_not_allowed id2
  ∧ no_server_function id1 ≠ codegen_failed id2.
Proof. repeat split; cbn; discriminate. Qed.

(** X6.  Each of the four messages determines the construct id it was
    made for, and no two of the four messages are ever equal, whatever
    the ids: a caller can read from the text which check failed and in
    which construct. *)
Theorem error_messages_identify (id1 id2 : string) :
  (missing_server id1 = missing_server id2 → id1 = id2)
  ∧ (routes_not_allowed id1 = routes_not_allowed id2 → id1 = id2)
  ∧ (codegen_failed id1 = codegen_failed id2 → id1 = id2)
  ∧ (no_server_function id1 = no_server_function id2 → id1 = id2)
  ∧ missing_server id1 ≠ routes_not_allowed id2
  ∧ missing_server id1 ≠ codegen_failed id2
  ∧ routes_not_allowed id1 ≠ codegen_failed id2
  ∧ no_server_function id1 ≠ missing_server id2
  ∧ no_server_function id1 ≠ routes_not_allowed id2
  ∧ no_server_function id1 ≠ codegen_failed id2.
Proof.
  split; [|split; [|split; [|split; [|apply messages_differ]]]]; intros Heq.
  - exact (quoted_id_inj ("Missing " +:+ quoted "server" +:+ " in the ")
             " ApolloApi" id1 id2 Heq).
  - exact (quoted_id_inj
             ("Please use the " +:+ quoted "server" +:+ " option instead of the "
              +:+ quoted "routes" +:+ " to configure the handler for the ")
             " ApolloApi" id1 id2 Heq).
  - exact (quoted_id_inj "Failed to generate the schema for the "
             " ApolloApi" id1 id2 Heq).
  - exact (quoted_id_inj
             ("Failed to get " +:+ quoted "serverFunction" +:+ " in the ")
             " ApolloApi" id1 id2 Heq).
Qed.

Lemma error_messages_identify_witness :
  (missing_server "Api" = missing_server "Api" → "Api" = "Api")
  ∧ (routes_not_allowed "Api" = routes_not_allowed "Api" → "Api" = "Api")
  ∧ (codegen_failed "Api" = codegen_failed "Api" → "Api" = "Api")
  ∧ (no_server_function "Api" = no_server_function "Api" → "Api" = "Api")
  ∧ missing_server "Api" ≠ routes_not_allowed "Api"
  ∧ missing_server "Api" ≠ codegen_failed "Api"
  ∧ routes_not_allowed "Api" ≠ codegen_failed "Api"
  ∧ no_server_function "Api" ≠ missing_server "Api"
  ∧ no_server_function "Api" ≠ routes_not_allowed "Api"
  ∧ no_server_function "Api" ≠ codegen_failed "Api".
Proof. exact (error_messages_identify "Api" "Api"). Defined.

(** ** When each outcome happens *)

Lemma constructor_cases run_command scope id props log :
  ((∀ handler, props ≫= server = Some handler → truthy_function handler = false)
   ∧ ApolloApi_constructor run_command scope id props log =
       (Throw (Error (missing_server id)), log))
  ∨ (∃ config handler supplied,
       props = Some config ∧ server config = Some handler
       ∧ truthy_function handler = true ∧ routes config = Some supplied
       ∧ ApolloApi_constructor run_command scope id props log =
           (Throw (Error (routes_not_allowed id)), log))
  ∨ (∃ config handler path,
       props = Some config ∧ valid config handler
       ∧ generates scope config path
       ∧ status (run_command "npx" (codegen_args path)) ≠ Some 0%Z
       ∧ ApolloApi_constructor run_command scope id props log =
           (Throw (Error (codegen_failed id)),
            log ++ [SpawnSync "npx" (codegen_args path)]))
  ∨ (∃ config handler outcome events apiProps,
       props = Some config ∧ valid config handler
       ∧ (∀ path, generates scope config path →
                  status (run_command "npx" (codegen_args path)) = Some 0%Z)
       ∧ ApolloApi_constructor run_command scope id props log =
           (outcome, log ++ events)
       ∧ super_calls events = [(id, apiProps)]).
Proof.
  destruct props as [config|]; cycle 1.
  { left. split; [by intros|]. by apply constructor_missing_server. }
  destruct (server config) as [handler|] eqn:Hserver; cycle 1.
  { left. assert (Hfalsy : ∀ h, Some config ≫= server = Some h →
                                truthy_function h = false)
      by (cbn; rewrite Hserver; by intros).
    split; [exact Hfalsy | by apply constructor_missing_server]. }
  destruct (truthy_function handler) eqn:Htruthy; cycle 1.
  { left. assert (Hfalsy : ∀ h, Some config ≫= server = Some h →
                                truthy_function h = false)
      by (cbn; rewrite Hserver; congruence).
    split; [exact Hfalsy | by apply constructor_missing_server]. }
  destruct (routes config) as [supplied|] eqn:Hroutes.
  { right; left. exists config, handler, supplied.
    do 4 (split; [reflexivity || assumption|]).
    by rewrite (constructor_server_ok _ _ _ _ _ _ Hserver Htruthy), Hroutes. }
  assert (Hvalid : valid config handler) by (by repeat split).
  right; right.
  assert (Hzero_or :
    (∀ path, generates scope config path →
             status (run_command "npx" (codegen_args path)) = Some 0%Z)
    ∨ ∃ path, generates scope config path
              ∧ status (run_command "npx" (codegen_args path)) ≠ Some 0%Z).
  { destruct (generates_dec scope config) as [[path Hgen]|[Hlocal|Hfalsy]].
    - destruct (decide (status (run_command "npx" (codegen_args path))
                        = Some 0%Z)) as [Hok|Hbad].
      + left. intros path' (Hpath' & _). destruct Hgen as (Hpath & _).
        assert (path' = path) as -> by congruence. exact Hok.
      + right. by exists path.
    - left. intros path (_ & _ & Hnot). congruence.
    - left. intros path (Hpath & Htrue & _). rewrite (Hfalsy _ Hpath) in Htrue.
      discriminate Htrue. }
  destruct Hzero_or as [Hzero|(path & Hgen & Hbad)].
  - right.
    destruct (constructor_valid run_command scope id config handler log Hvalid Hzero)
      as (this & events & Hrun & Hsuper & _).
    exists config, handler, (Return this), events. eexists.
    split; [reflexivity|]. split; [exact Hvalid|]. split; [exact Hzero|].
    split; [exact Hrun | exact Hsuper].
  - left. exists config, handler, path.
    do 4 (split; [reflexivity || assumption|]).
    rewrite (constructor_server_ok _ _ _ _ _ _ Hserver Htruthy), Hroutes.
    cbn [truthy_opt_object]. unfold mbind at 1. unfold Exec_bind at 1.
    rewrite (run_codegen_spawns _ _ _ _ _ _ Hgen). unfold status_not_zero.
    destruct (status (run_command "npx" (codegen_args path))) as [[| |]|];
      try reflexivity. by destruct Hbad.
Qed.

(** X2.  Each way the constructor of this class can end has its exact
    condition.  It throws the missing-server error, without having called
    the generic construct, exactly when the server is falsy (no props, no
    server, or an empty handler path); the routes error exactly when the
    server is truthy and a route map is supplied; the failed-generation
    error exactly when both checks pass, a truthy codegen path is set,
    the app is not local and the tool does not exit with status zero; and
    it calls the generic construct exactly in the remaining case.  What
    the generic construct does once it is called is not part of the
    statement. *)
Theorem constructor_outcome_conditions run_command scope id props log :
  ∃ outcome events,
    ApolloApi_constructor run_command scope id props log = (outcome, log ++ events)
    ∧ ((outcome = Throw (Error (missing_server id)) ∧ super_calls events = []) ↔
         ∀ handler, props ≫= server = Some handler →
                    truthy_function handler = false)
    ∧ ((outcome = Throw (Error (routes_not_allowed id)) ∧ super_calls events = []) ↔
         ∃ config handler supplied,
           props = Some config ∧ server config = Some handler
           ∧ truthy_function handler = true ∧ routes config = Some supplied)
    ∧ ((outcome = Throw (Error (codegen_failed id)) ∧ super_calls events = []) ↔
         ∃ config handler path,
           props = Some config ∧ valid config handler
           ∧ generates scope config path
           ∧ status (run_command "npx" (codegen_args path)) ≠ Some 0%Z)
    ∧ (super_calls events ≠ [] ↔
         ∃ config handler,
           props = Some config ∧ valid config handler
           ∧ ∀ path, generates scope config path →
                     status (run_command "npx" (codegen_args path)) = Some 0%Z).
Proof.
  pose proof (messages_differ id id) as (Hmr & Hmc & Hrc & _).
  destruct (constructor_cases run_command scope id props log)
    as [(Hfalsy & Hrun)
       |[(config & handler & supplied & -> & Hserver & Htruthy & Hroutes & Hrun)
        |[(config & handler & path & -> & Hvalid & Hgen & Hbad & Hrun)
         |(config & handler & outcome & events & apiProps & -> & Hvalid & Hzero
           & Hrun & Hsuper)]]].
  - exists (Throw (Error (missing_server id))), []. rewrite app_nil_r.
    split; [exact Hrun|]. split; [done|]. split; [|split].
    + split; [intros [[=] _]; congruence|].
      intros (c & h & s & -> & Hs & Ht & _). cbn in Hfalsy.
      rewrite (Hfalsy _ Hs) in Ht. discriminate Ht.
    + split; [intros [[=] _]; congruence|].
      intros (c & h & p & -> & (Hs & Ht & _) & _). cbn in Hfalsy.
      rewrite (Hfalsy _ Hs) in Ht. discriminate Ht.
    + split; [intros Hne; by destruct Hne|].
      intros (c & h & -> & (Hs & Ht & _) & _). cbn in Hfalsy.
      rewrite (Hfalsy _ Hs) in Ht. discriminate Ht.
  - exists (Throw (Error (routes_not_allowed id))), []. rewrite app_nil_r.
    split; [exact Hrun|]. split; [|split; [|split]].
    + split; [intros [[=] _]; congruence|]. intros Hf. cbn in Hf.
      rewrite (Hf _ Hserver) in Htruthy. discriminate Htruthy.
    + split; [intros _|done]. by exists config, handler, supplied.
    + split; [intros [[=] _]; congruence|].
      intros (c & h & p & [= <-] & (_ & _ & Hnone) & _). congruence.
    + split; [intros Hne; by destruct Hne|].
      intros (c & h & [= <-] & (_ & _ & Hnone) & _). congruence.
  - exists (Throw (Error (codegen_failed id))),
      [SpawnSync "npx" (codegen_args path)].
    destruct Hvalid as (Hserver & Htruthy & Hroutes).
    split; [exact Hrun|]. split; [|split; [|split]].
    + split; [intros [[=] _]; congruence|]. intros Hf. cbn in Hf.
      rewrite (Hf _ Hserver) in Htruthy. discriminate Htruthy.
    + split; [intros [[=] _]; congruence|].
      intros (c & h & s & [= <-] & _ & _ & Hsome). congruence.
    + split; [intros _|done]. exists config, handler, path.
      exact (conj eq_refl (conj (conj Hserver (conj Htruthy Hroutes))
                                (conj Hgen Hbad))).
    + split; [intros Hne; by destruct Hne|].
      intros (c & h & [= <-] & _ & Hz). by destruct Hbad; apply Hz.
  - exists outcome, events. destruct Hvalid as (Hserver & Htruthy & Hroutes).
    split; [exact Hrun|]. rewrite Hsuper. split; [|split; [|split]].
    + split; [intros [_ [=]]|]. intros Hf. cbn in Hf.
      rewrite (Hf _ Hserver) in Htruthy. discriminate Htruthy.
    + split; [intros [_ [=]]|].
      intros (c & h & s & [= <-] & _ & _ & Hsome). congruence.
    + split; [intros [_ [=]]|].
      intros (c & h & p & [= <-] & _ & Hg & Hb). by destruct Hb; apply Hzero.
    + split; [intros _|intros _; discriminate]. exists config, handler.
      exact (conj eq_refl (conj (conj Hserver (conj Htruthy Hroutes)) Hzero)).
Qed.

Lemma constructor_outcome_conditions_witness :
  (∃ config handler path,
     Some graphql_props = Some config ∧ valid config handler
     ∧ generates deployed config path
     ∧ status (tool_exits 1 "npx" (codegen_args path)) ≠ Some 0%Z)
  ∧ ∃ outcome events,
      ApolloApi_constructor (tool_exits 1) deployed "Api" (Some graphql_props) [] =
        (outcome, [] ++ events)
      ∧ outcome = Throw (Error (codegen_failed "Api"))
      ∧ super_calls events = [].
Proof.
  assert (Hcond : ∃ config handler path,
     Some graphql_props = Some config ∧ valid config handler
     ∧ generates deployed config path
     ∧ status (tool_exits 1 "npx" (codegen_args path)) ≠ Some 0%Z).
  { exists graphql_props, graphql_handler, "codegen.yml".
    split; [reflexivity|]. split; [repeat split; reflexivity|].
    split; [repeat split; reflexivity|]. simpl. discriminate. }
  split; [exact Hcond|].
  destruct (constructor_outcome_conditions (tool_exits 1) deployed "Api"
              (Some graphql_props) [])
    as (outcome & events & Hrun & _ & _ & Hcodegen & _).
  exists outcome, events. split; [exact Hrun|].
  exact (proj2 Hcodegen Hcond).
Defined.

(** ** The tool and the order of the effects *)

Lemma run_codegen_not_generating run_command scope id props log :
  (∀ path, ¬ generates scope props path) →
  run_codegen run_command scope id props log = (Return tt, log).
Proof.
  intros Hnot. destruct (generates_dec scope props) as [[path Hgen]|[Hlocal|Hfalsy]].
  - by destruct (Hnot path).
  - by apply run_codegen_local.
  - by apply run_codegen_skipped.
Qed.

(** X3.  Unless the configuration has a truthy codegen path and the app
    is not local, the constructor spawns nothing and its result (outcome
    and events) is the same whatever the tool would do. *)
Theorem tool_matters_only_when_generating
    run_command other_command scope id props log :
  (∀ path, ¬ generates scope props path) →
  ∃ outcome events,
    ApolloApi_constructor run_command scope id (Some props) log =
      (outcome, log ++ events)
    ∧ ApolloApi_constructor other_command scope id (Some props) log =
      (outcome, log ++ events)
    ∧ spawned events = [].
Proof.
  intros Hnot.
  destruct (server props) as [handler|] eqn:Hserver; cycle 1.
  { exists (Throw (Error (missing_server id))), []. rewrite app_nil_r.
    split; [|split; [|reflexivity]];
      apply constructor_missing_server; cbn; by rewrite Hserver. }
  destruct (truthy_function handler) eqn:Htruthy; cycle 1.
  { exists (Throw (Error (missing_server id))), []. rewrite app_nil_r.
    split; [|split; [|reflexivity]];
      apply constructor_missing_server; cbn; rewrite Hserver; congruence. }
  rewrite !(constructor_server_ok _ _ _ _ _ _ Hserver Htruthy).
  destruct (routes props) as [supplied|].
  { exists (Throw (Error (routes_not_allowed id))), []. by rewrite app_nil_r. }
  cbn [truthy_opt_object]. unfold mbind at 1 3. unfold Exec_bind at 1 3.
  rewrite !(run_codegen_not_generating _ _ _ _ _ Hnot).
  match goal with |- context [call_super scope id ?p] =>
    destruct (call_super_spec scope id p log) as (built & Hsuper & _)
  end.
  unfold mbind, Exec_bind. rewrite Hsuper.
  eexists (Return _), [SuperCall id _]. by repeat split.
Qed.

Lemma tool_matters_only_when_generating_witness :
  (∀ path, ¬ generates local_dev graphql_props path)
  ∧ ∃ outcome events,
      ApolloApi_constructor (tool_exits 0) local_dev "Api" (Some graphql_props) [] =
        (outcome, [] ++ events)
      ∧ ApolloApi_constructor (tool_exits 1) local_dev "Api" (Some graphql_props) [] =
        (outcome, [] ++ events)
      ∧ spawned events = [].
Proof.
  assert (Hnot : ∀ path, ¬ generates local_dev graphql_props path)
    by (intros path (_ & _ & Hlocal); simpl in Hlocal; discriminate Hlocal).
  split; [exact Hnot|].
  exact (tool_matters_only_when_generating (tool_exits 0) (tool_exits 1)
           local_dev "Api" graphql_props [] Hnot).
Defined.

(** X4.  When both checks pass, a truthy codegen path is set, the app is
    not local and the tool exits with status zero, the constructor
    returns the instance after exactly two effects in this order: the
    tool spawned once as npx graphql-codegen -c with the configured path,
    then the one call of the generic construct, whose props still carry
    that path. *)
Theorem generation_precedes_super run_command scope id props handler path log :
  valid props handler →
  generates scope props path →
  status (run_command "npx" (codegen_args path)) = Some 0%Z →
  ∃ this apiProps,
    ApolloApi_constructor run_command scope id (Some props) log =
      (Return this,
       log ++ [SpawnSync "npx" ["graphql-codegen"; "-c"; path];
               SuperCall id apiProps])
    ∧ api_codegen apiProps = Some path
    ∧ this_props this = Some props.
Proof.
  intros (Hserver & Htruthy & Hroutes) Hgen Hzero.
  rewrite (constructor_server_ok _ _ _ _ _ _ Hserver Htruthy), Hroutes.
  cbn [truthy_opt_object]. unfold mbind at 1. unfold Exec_bind at 1.
  rewrite (run_codegen_spawns _ _ _ _ _ _ Hgen).
  unfold status_not_zero. rewrite Hzero.
  match goal with |- context [call_super scope id ?p] =>
    destruct (call_super_spec scope id p
                (log ++ [SpawnSync "npx" (codegen_args path)]))
      as (built & Hsuper & _)
  end.
  unfold mbind, Exec_bind. rewrite Hsuper. eexists _, _.
  split; [by rewrite <- (assoc_L (++))|]. split; [|reflexivity].
  cbn. by destruct Hgen as (-> & _).
Qed.

Lemma generation_precedes_super_witness :
  valid graphql_props graphql_handler
  ∧ generates deployed graphql_props "codegen.yml"
  ∧ status (tool_exits 0 "npx" (codegen_args "codegen.yml")) = Some 0%Z
  ∧ ∃ this apiProps,
      ApolloApi_constructor (tool_exits 0) deployed "Api" (Some graphql_props) [] =
        (Return this,
         [] ++ [SpawnSync "npx" ["graphql-codegen"; "-c"; "codegen.yml"];
                SuperCall "Api" apiProps])
      ∧ api_codegen apiProps = Some "codegen.yml"
      ∧ this_props this = Some graphql_props.
Proof.
  assert (Hvalid : valid graphql_props graphql_handler)
    by (repeat split; reflexivity).
  assert (Hgen : generates deployed graphql_props "codegen.yml")
    by (repeat split; reflexivity).
  split; [exact Hvalid|]. split; [exact Hgen|]. split; [reflexivity|].
  exact (generation_precedes_super (tool_exits 0) deployed "Api" graphql_props
           graphql_handler "codegen.yml" [] Hvalid Hgen eq_refl).
Defined.

(** ** The root path *)

Lemma server_routes_slash rootPath handler :
  is_Some (server_routes rootPath handler !! "GET /") ↔ rootPath = "/".
Proof.
  unfold server_routes. rewrite !lookup_insert, lookup_empty.
  split.
  - intros [found Hfound]. repeat case_decide; try discriminate.
    match goal with H : "GET " +:+ rootPath = "GET /" |- _ =>
      change (String.app "GET " rootPath = String.app "GET " "/") in H;
      exact (inj (String.app "GET ") _ _ H)
    end.
  - intros ->. repeat case_decide; by eauto.
Qed.

(** X5.  The default root path is applied only when the configuration
    has no root path.  For a configuration that passes both checks, the
    route map handed to the generic construct has the key GET / exactly
    when the root path is absent or is the slash itself, and an empty
    root path is used as it is, giving the keys GET and POST followed by
    a space and nothing else.  What the generic construct does with such
    keys is not part of the statement. *)
Theorem root_path_default_only_when_absent
    run_command scope id props handler log :
  valid props handler →
  (∀ path, generates scope props path →
           status (run_command "npx" (codegen_args path)) = Some 0%Z) →
  ∃ outcome events apiProps routeMap,
    ApolloApi_constructor run_command scope id (Some props) log =
      (outcome, log ++ events)
    ∧ super_calls events = [(id, apiProps)]
    ∧ api_routes apiProps = Some routeMap
    ∧ (is_Some (routeMap !! "GET /") ↔
       rootPath props = None ∨ rootPath props = Some "/")
    ∧ (rootPath props = Some EmptyString →
       routeMap !! "GET " = Some handler
       ∧ routeMap !! "POST " = Some handler
       ∧ routeMap !! "GET /" = None
       ∧ size routeMap = 2).
Proof.
  intros Hvalid Hzero.
  destruct (constructor_valid run_command scope id props handler log Hvalid Hzero)
    as (this & events & Hrun & Hsuper & _).
  exists (Return this), events.
  eexists _, (server_routes (default "/" (rootPath props)) handler).
  split; [exact Hrun|]. split; [exact Hsuper|]. split; [reflexivity|]. split.
  - rewrite server_routes_slash. destruct (rootPath props) as [root|]; cbn.
    + split; [intros ->; by right | intros [[=]|[= ->]]; reflexivity].
    + split; [by left | reflexivity].
  - intros Hempty. rewrite Hempty. cbn [default].
    split; [exact (server_routes_get EmptyString handler)|].
    split; [exact (server_routes_post EmptyString handler)|].
    split; [|apply server_routes_size].
    apply eq_None_not_Some. rewrite server_routes_slash. discriminate.
Qed.

Lemma root_path_default_only_when_absent_witness :
  valid empty_root_props graphql_handler
  ∧ (∀ path, generates deployed empty_root_props path →
             status (tool_exits 0 "npx" (codegen_args path)) = Some 0%Z)
  ∧ ∃ outcome events apiProps routeMap,
      ApolloApi_constructor (tool_exits 0) deployed "Api" (Some empty_root_props) [] =
        (outcome, [] ++ events)
      ∧ super_calls events = [("Api", apiProps)]
      ∧ api_routes apiProps = Some routeMap
      ∧ (is_Some (routeMap !! "GET /") ↔
         rootPath empty_root_props = None ∨ rootPath empty_root_props = Some "/")
      ∧ (rootPath empty_root_props = Some EmptyString →
         routeMap !! "GET " = Some graphql_handler
         ∧ routeMap !! "POST " = Some graphql_handler
         ∧ routeMap !! "GET /" = None
         ∧ size routeMap = 2).
Proof.
  assert (Hvalid : valid empty_root_props graphql_handler)
    by (repeat split; reflexivity).
  assert (Hzero : ∀ path, generates deployed empty_root_props path →
            status (tool_exits 0 "npx" (codegen_args path)) = Some 0%Z)
    by (intros path _; reflexivity).
  split; [exact Hvalid|]. split; [exact Hzero|].
  exact (root_path_default_only_when_absent (tool_exits 0) deployed "Api"
           empty_root_props graphql_handler [] Hvalid Hzero).
Defined.

(** ** One integration for the whole life of an instance *)


Lemma getConstructMetadata_keeps_this Api_getConstructMetadata this :
  (getConstructMetadata Api_getConstructMetadata this).2 = this.
Proof.
  unfold getConstructMetadata. run_exec. by destruct (this_props this).
Qed.

Lemma serverFunction_keeps_this this : (serverFunction this).2 = this.
Proof.
  unfold serverFunction. run_exec.
  destruct (Api_getFunction _ _) as [fn|]; [|reflexivity].
  by destruct (truthy_function fn).
Qed.

Lemma after_calls_cached Api_getConstructMetadata cs this cached :
  lambdaIntegration this = Some cached →
  after_calls Api_getConstructMetadata cs this = this
  ∧ ∀ handle,
      handle ∈ handles_of_calls Api_getConstructMetadata cs this →
      handle = cached.
Proof.
  intros Hcache. induction cs as [|c cs [IHstate IHhandles]].
  - split; [reflexivity|]. intros handle Hin. by apply elem_of_nil in Hin.
  - assert (Hsame : after_call Api_getConstructMetadata c this = this).
    { destruct c as [r| |]; cbn.
      - unfold request. by rewrite (createFunctionIntegration_cached _ _ _ _ _ _ Hcache).
      - apply getConstructMetadata_keeps_this.
      - apply serverFunction_keeps_this. }
    split.
    + unfold after_calls in *. cbn [foldl]. by rewrite Hsame.
    + intros handle. cbn [handles_of_calls]. rewrite Hsame, elem_of_app.
      intros [Hin|Hin]; [|by apply IHhandles].
      destruct c as [r| |]; try by apply elem_of_nil in Hin.
      unfold request in Hin.
      rewrite (createFunctionIntegration_cached _ _ _ _ _ _ Hcache) in Hin.
      by apply list_elem_of_singleton in Hin.
Qed.

(** X8.  Whatever calls of createFunctionIntegration,
    getConstructMetadata and serverFunction are made on an instance, in
    any order and whether they return or throw: at most one integration
    object is created by all of them together, every handle returned is
    the same object and is the one the instance holds at the end, the
    root path and the props of the instance are never written, and once
    the instance holds an integration no call changes it at all. *)
Theorem methods_share_one_integration
    (Api_getConstructMetadata : Api → gmap string JsField)
    (cs : list Call) (this : ApolloApi) :
  let final := after_calls Api_getConstructMetadata cs this in
  let handles := handles_of_calls Api_getConstructMetadata cs this in
  (∀ cached, lambdaIntegration this = Some cached → final = this)
  ∧ length (integrations (super final)) ≤ S (length (integrations (super this)))
  ∧ (∀ handle, handle ∈ handles → lambdaIntegration final = Some handle)
  ∧ (∀ first second, first ∈ handles → second ∈ handles → first = second)
  ∧ this_rootPath final = this_rootPath this
  ∧ this_props final = this_props this.
Proof.
  cbn zeta.
  assert (Hmain :
    (∀ cached, lambdaIntegration this = Some cached →
       after_calls Api_getConstructMetadata cs this = this)
    ∧ length (integrations (super (after_calls Api_getConstructMetadata cs this)))
      ≤ S (length (integrations (super this)))
    ∧ (∀ handle, handle ∈ handles_of_calls Api_getConstructMetadata cs this →
         lambdaIntegration (after_calls Api_getConstructMetadata cs this)
         = Some handle)
    ∧ this_rootPath (after_calls Api_getConstructMetadata cs this)
      = this_rootPath this
    ∧ this_props (after_calls Api_getConstructMetadata cs this)
      = this_props this).
  { destruct (lambdaIntegration this) as [cached|] eqn:Hcache.
    - destruct (after_calls_cached Api_getConstructMetadata cs this cached Hcache)
        as [Hstate Hhandles].
      rewrite Hstate. split; [done|]. split; [lia|]. split; [|done].
      intros handle Hin. by rewrite (Hhandles _ Hin).
    - split; [intros ? [=]|]. induction cs as [|c cs IH].
      + cbn. split; [lia|]. split; [|done]. intros handle Hin.
        by apply elem_of_nil in Hin.
      + destruct c as [r| |].
        * unfold after_calls. cbn [foldl handles_of_calls after_call].
          unfold request.
          rewrite (createFunctionIntegration_first _ _ _ _ _ Hcache).
          cbn [fst snd].
          match goal with |- context [foldl _ ?s cs] =>
            destruct (after_calls_cached Api_getConstructMetadata cs s
                        {| integration_ref := length (integrations (super this)) |}
                        eq_refl) as [Hstate Hhandles];
            unfold after_calls in Hstate; rewrite Hstate
          end.
          cbn. rewrite length_app. cbn. split; [lia|]. split; [|done].
          intros handle [->|Hin]%elem_of_cons; [reflexivity|].
          by rewrite (Hhandles _ Hin).
        * unfold after_calls in *. cbn [foldl handles_of_calls after_call].
          rewrite getConstructMetadata_keeps_this. exact IH.
        * unfold after_calls in *. cbn [foldl handles_of_calls after_call].
          rewrite serverFunction_keeps_this. exact IH. }
  destruct Hmain as (Hstable & Hone & Hheld & Hroot & Hprops).
  split; [exact Hstable|]. split; [exact Hone|]. split; [exact Hheld|].
  split; [|by split].
  intros first second Hfirst Hsecond.
  pose proof (Hheld _ Hfirst) as H1. pose proof (Hheld _ Hsecond) as H2.
  congruence.
Qed.

Lemma methods_share_one_integration_witness :
  let get := {| request_scope := deployed; request_routeKey := "GET /";
                request_routeProps := {| route_function := graphql_handler |};
                request_postfixName := "Lambda_GET_/" |} in
  let post := {| request_scope := deployed; request_routeKey := "POST /";
                 request_routeProps := {| route_function := FunctionObject 7 |};
                 request_postfixName := "Lambda_POST_/" |} in
  let cs := [CallServerFunction; CallCreateFunctionIntegration get;
             CallGetConstructMetadata; CallCreateFunctionIntegration post] in
  let final := after_calls sample_metadata cs (ApolloApi_blank "Api") in
  let handles := handles_of_calls sample_metadata cs (ApolloApi_blank "Api") in
  handles = [{| integration_ref := 0 |}; {| integration_ref := 0 |}]
  ∧ (∀ cached, lambdaIntegration (ApolloApi_blank "Api") = Some cached →
       final = ApolloApi_blank "Api")
  ∧ length (integrations (super final))
    ≤ S (length (integrations (super (ApolloApi_blank "Api"))))
  ∧ (∀ handle, handle ∈ handles → lambdaIntegration final = Some handle)
  ∧ (∀ first second, first ∈ handles → second ∈ handles → first = second)
  ∧ this_rootPath final = this_rootPath (ApolloApi_blank "Api")
  ∧ this_props final = this_props (ApolloApi_blank "Api").
Proof.
  intros get post cs final handles. split; [reflexivity|].
  exact (methods_share_one_integration sample_metadata cs (ApolloApi_blank "Api")).
Defined.

(** ** The metadata of the parent *)

(** X9.  On an instance whose props are assigned, an entry named local
    in the metadata of the generic construct is replaced and not merged:
    the result depends on the parent's record only through its other
    entries, it has one entry more than the parent has entries other
    than local, and calling the method again gives the same record. *)
Theorem getConstructMetadata_replaces_parent_local
    (parent other : Api → gmap string JsField) (this : ApolloApi)
    (config : ApolloApiProps) :
  this_props this = Some config →
  ∃ metadata,
    getConstructMetadata parent this = (Return metadata, this)
    ∧ size metadata = S (size (delete "local" (parent (super this))))
    ∧ delete "local" metadata = delete "local" (parent (super this))
    ∧ (delete "local" (other (super this)) = delete "local" (parent (super this)) →
       getConstructMetadata other this = (Return metadata, this))
    ∧ (getConstructMetadata parent;; getConstructMetadata parent) this
      = (Return metadata, this).
Proof.
  intros Hprops. eexists. split.
  { unfold getConstructMetadata. run_exec. by rewrite Hprops. }
  split; [|split; [|split]].
  - rewrite <- insert_delete_eq. apply map_size_insert_None, lookup_delete_eq.
  - apply delete_insert_eq.
  - intros Hsame. unfold getConstructMetadata. run_exec. rewrite Hprops.
    by rewrite <- (insert_delete_eq (other _)), Hsame, insert_delete_eq.
  - unfold getConstructMetadata. run_exec. rewrite Hprops. cbn beta iota.
    by rewrite Hprops.
Qed.

Lemma getConstructMetadata_replaces_parent_local_witness :
  this_props graphql_api = Some graphql_props
  ∧ ∃ metadata,
      getConstructMetadata metadata_with_local graphql_api = (Return metadata, graphql_api)
      ∧ size metadata = S (size (delete "local" (metadata_with_local (super graphql_api))))
      ∧ delete "local" metadata = delete "local" (metadata_with_local (super graphql_api))
      ∧ (delete "local" (sample_metadata (super graphql_api))
         = delete "local" (metadata_with_local (super graphql_api)) →
         getConstructMetadata sample_metadata graphql_api = (Return metadata, graphql_api))
      ∧ (getConstructMetadata metadata_with_local;;
         getConstructMetadata metadata_with_local) graphql_api
        = (Return metadata, graphql_api).
Proof.
  split; [reflexivity|].
  exact (getConstructMetadata_replaces_parent_local metadata_with_local
           sample_metadata graphql_api graphql_props eq_refl).
Defined.

Example parent_local_is_dropped :
  delete "local" (sample_metadata (super graphql_api))
  = delete "local" (metadata_with_local (super graphql_api)).
Proof. vm_compute. reflexivity. Qed.
